(** * Ensembles and voting

    A shallow embedding of the executable cells of [ensemble_voting.ipynb]:
    the synthetic classifiers ([create_classifiers], [make_corr_classifiers]),
    the fuzzy classifiers ([fuzzy_ground], [create_fuzzy_classifiers]) and the
    two aggregators ([do_majority], [fuzzy_ensemble]).

    Python floats and numpy's [float64] are IEEE 754 binary64 numbers; they are
    modelled by the standard library's [spec_float] at precision 53 and
    maximal exponent 1024, so that every rounding the notebook performs is
    performed here as well.  Python lists are mutable objects: they live in a
    heap and are passed by reference.  The process-wide generator [rng] is
    threaded through every call. *)

From Stdlib Require Import ZArith QArith Lia List Bool Permutation.
From Stdlib Require Import Floats.SpecFloat.
From stdpp Require Import base option list gmap.

(* ===================================================================== *)
(** * Part I: the model                                                   *)
(* ===================================================================== *)

(** ** binary64 arithmetic *)

Module Float64.
Local Open Scope Z_scope.

Definition prec : Z := 53.
Definition emax : Z := 1024.

Abbreviation float := spec_float.

Definition fadd : float -> float -> float := SFadd prec emax.
Definition fmul : float -> float -> float := SFmul prec emax.
Definition fdiv : float -> float -> float := SFdiv prec emax.
Definition flt : float -> float -> bool := SFltb.
Definition fle : float -> float -> bool := SFleb.
Definition feq : float -> float -> bool := SFeqb.

(** Conversion of an integer to a double (C's [(double) n], numpy's cast of
    an [intp] count): rounded to nearest even, exact below [2^53]. *)
Definition of_Z (n : Z) : float := binary_normalize prec emax n 0 false.

Definition f_zero : float := S754_zero false.
Definition f_one : float := Eval cbv in of_Z 1.
Definition f_two : float := Eval cbv in of_Z 2.
(** The literal [.5]. *)
Definition f_half : float := Eval cbv in fdiv (of_Z 1) (of_Z 2).
Definition f_nan : float := S754_nan.

(** Quotient of [p] by [d] rounded to the nearest integer, ties to the even
    one. *)
Definition rne_div (p d : Z) : Z :=
  let q := p / d in
  match 2 * (p mod d) ?= d with
  | Lt => q
  | Gt => q + 1
  | Eq => if Z.even q then q else q + 1
  end.

(** C's [rint] in the default rounding mode, which is what [np.round] (with
    [decimals=0]) and [np.rint] apply to each element of a float array. *)
Definition rint (x : float) : float :=
  match x with
  | S754_finite s m e =>
      if 0 <=? e then x
      else binary_normalize prec emax
             (cond_Zopp s (rne_div (Z.pos m) (2 ^ (- e)))) 0 s
  | _ => x
  end.

(** The finite positive double of mantissa [q] and exponent [e], where the
    mantissa may have been rounded up to [2^53]. *)
Definition pack (q e : Z) : float :=
  if q =? 2 ^ 53 then S754_finite false (Z.to_pos (2 ^ 52)) (e + 1)
  else S754_finite false (Z.to_pos q) e.

(** The position of the rational [p/d] between two integers, as the
    shift-right records of [SpecFloat] keep it. *)
Definition frac_record (p d : Z) : shr_record :=
  {| shr_m := p / d;
     shr_r := d <=? 2 * (p mod d);
     shr_s := negb (p mod d =? 0) && negb (2 * (p mod d) =? d) |}.

(** Normalised mantissa and exponent of a positive integer below [2^53]. *)
Definition mant (c : Z) : Z := c * 2 ^ (53 - Zdigits2 c).
Definition expo (c : Z) : Z := Zdigits2 c - 53.

(** The double [k * 2^-53], for [0 <= k < 2^53]. *)
Definition unit_float (k : Z) : float :=
  if k =? 0 then f_zero else S754_finite false (Z.to_pos (mant k)) (expo k - 53).
End Float64.
Export Float64.

(** ** Python values, exceptions and the heap of list objects *)

Inductive exn : Type :=
  | ValueError
  | ZeroDivisionError
  | IndexError
  | DanglingReference.

Inductive result (A : Type) : Type :=
  | Ok (a : A)
  | Raise (e : exn).
Arguments Ok {A} a.
Arguments Raise {A} e.

Definition result_bind {A B} (r : result A) (k : A -> result B) : result B :=
  match r with
  | Ok a => k a
  | Raise e => Raise e
  end.

(** ** numpy's [Generator]

    [rng = np.random.default_rng(2718)] is a PCG64 bit generator.  Its state
    machine is not modelled: a generator is the stream of 64-bit words it is
    going to output, and a cursor.  [Generator.random()] is numpy's
    [uint64_to_double]: [(word >> 11) * (1.0 / 9007199254740992.0)]. *)

Record Generator : Type := MkGenerator {
  words : nat -> Z;
  cursor : nat
}.

Definition next_uint64 (g : Generator) : Z := (words g (cursor g) mod 2 ^ 64)%Z.

Definition advance (g : Generator) : Generator :=
  {| words := words g; cursor := S (cursor g) |}.

Definition uint64_to_double (u : Z) : float :=
  fmul (of_Z (Z.shiftr u 11)) (fdiv f_one (of_Z 9007199254740992)).

Definition random (g : Generator) : float * Generator :=
  (uint64_to_double (next_uint64 g), advance g).

(** ** The interpreter state *)

Definition loc : Type := positive.

Record world : Type := MkWorld {
  heap : gmap loc (list bool);
  rng : Generator
}.

Definition M (A : Type) : Type := world -> result (A * world).

Definition ret {A} (a : A) : M A := fun w => Ok (a, w).

Definition bind {A B} (m : M A) (k : A -> M B) : M B :=
  fun w => match m w with
           | Ok (a, w') => k a w'
           | Raise e => Raise e
           end.

Declare Scope py_scope.
Delimit Scope py_scope with py.
Notation "x <- m ;; k" := (bind m (fun x => k))
  (at level 100, m at next level, right associativity) : py_scope.
Notation "m ;;; k" := (bind m (fun _ => k))
  (at level 100, right associativity) : py_scope.
Local Open Scope py_scope.

(** [rng.random()] *)
Definition rng_random : M float :=
  fun w => let '(r, g) := random (rng w) in
           Ok (r, {| heap := heap w; rng := g |}).

(** A new list object holding [xs]. *)
Definition list_new (xs : list bool) : M loc :=
  fun w => let l := fresh (dom (heap w)) in
           Ok (l, {| heap := <[l := xs]> (heap w); rng := rng w |}).

Definition list_read (l : loc) : M (list bool) :=
  fun w => match heap w !! l with
           | Some xs => Ok (xs, w)
           | None => Raise DanglingReference
           end.

(** [l.copy()] *)
Definition list_copy (l : loc) : M loc :=
  xs <- list_read l ;; list_new xs.

(** [len(l)] *)
Definition list_len (l : loc) : M nat :=
  xs <- list_read l ;; ret (length xs).

(** [l[i]] *)
Definition list_getitem (l : loc) (i : nat) : M bool :=
  xs <- list_read l ;;
  match xs !! i with
  | Some b => ret b
  | None => fun _ => Raise IndexError
  end.

(** [l[i] = b] *)
Definition list_setitem (l : loc) (i : nat) (b : bool) : M unit :=
  fun w => match heap w !! l with
           | Some xs =>
               if decide (i < length xs)%nat
               then Ok (tt, {| heap := <[l := <[i := b]> xs]> (heap w);
                               rng := rng w |})
               else Raise IndexError
           | None => Raise DanglingReference
           end.

(** [for x in xs: body(x)] *)
Fixpoint for_each {A} (xs : list A) (body : A -> M unit) : M unit :=
  match xs with
  | [] => ret tt
  | x :: xs' => body x ;;; for_each xs' body
  end.

(** [[f(x) for x in xs]] *)
Fixpoint list_comp {A B} (xs : list A) (f : A -> M B) : M (list B) :=
  match xs with
  | [] => ret []
  | x :: xs' => y <- f x ;; ys <- list_comp xs' f ;; ret (y :: ys)
  end.

(** [range(n)]: empty when [n] is not positive. *)
Definition range (n : Z) : list nat := seq 0 (Z.to_nat n).

(** ** The notebook's functions *)

(** [[rng.random() > .5 for x in range(num_bits)]] *)
Definition create_ground_truth (num_bits : Z) : M loc :=
  bits <- list_comp (range num_bits)
            (fun _ => r <- rng_random ;; ret (flt f_half r)) ;;
  list_new bits.

(** The [for count, bit in enumerate(src)] loop shared by both synthesizers:
    it reads [src] and writes [dst].  The list iterator stops when its index
    reaches the length of [src], which the body never changes. *)
Definition flip_loop (src dst : loc) (flip_ratio : float) : M unit :=
  n <- list_len src ;;
  for_each (seq 0 n) (fun count =>
    bit <- list_getitem src count ;;
    r <- rng_random ;;
    if flt r flip_ratio then list_setitem dst count (negb bit) else ret tt).

(** [create_classifiers(ground_truth, num_classifiers, flip_ratio=.4)]: the
    copies are made first, then each copy is flipped in place while it is
    enumerated. *)
Definition create_classifiers (ground_truth : loc) (num_classifiers : Z)
    (flip_ratio : float) : M (list loc) :=
  classifiers <- list_comp (range num_classifiers)
                   (fun _ => list_copy ground_truth) ;;
  for_each classifiers (fun classifier =>
    flip_loop classifier classifier flip_ratio) ;;;
  ret classifiers.

(** [make_corr_classifiers(base_sys, flip=.1, num_classifiers=99)]: each new
    system is a copy of [base_sys], flipped while [base_sys] is enumerated. *)
Definition make_corr_classifiers (base_sys : loc) (flip : float)
    (num_classifiers : Z) : M (list loc) :=
  list_comp (range num_classifiers) (fun _ =>
    new_sys <- list_copy base_sys ;;
    flip_loop base_sys new_sys flip ;;;
    ret new_sys).

(** [fuzzy_ground] only reads its argument and returns a list nobody else
    holds, so both are passed by value. *)
Fixpoint fuzzy_ground (input : list bool) : M (list float) :=
  match input with
  | [] => ret []
  | bit :: rest =>
      r <- rng_random ;;
      let fuzzy := if bit then fdiv (fadd r f_one) f_two else fdiv r f_two in
      out <- fuzzy_ground rest ;;
      ret (fuzzy :: out)
  end.

(** [create_fuzzy_classifiers(ground_truth, num_classifiers=5, flip_ratio=.4)];
    each [pd.Series(fuzzed)] is kept as the sequence of its values. *)
Definition create_fuzzy_classifiers (ground_truth : loc)
    (num_classifiers : Z) (flip_ratio : float) : M (list (list float)) :=
  regular_classifiers <-
    create_classifiers ground_truth num_classifiers flip_ratio ;;
  list_comp regular_classifiers (fun classifier =>
    bits <- list_read classifier ;;
    fuzzy_ground bits).

(** ** numpy's [mean] and [round] *)

(** What [np.asarray] turns into a [float64]. *)
Class Float64Like (A : Type) := as_float64 : A -> float.
#[export] Instance bool_float64 : Float64Like bool :=
  fun b => if b then f_one else f_zero.
#[export] Instance float_float64 : Float64Like float := fun x => x.

Inductive ndarray : Type :=
  | Scalar (x : float)
  | Array1 (xs : list float).

(** [np.mean(a, axis=0)] of a list of sequences.  An empty list is an array
    of shape [(0,)]: its mean is the scalar [0.0 / 0], with a warning.  Rows
    of differing lengths make [np.asarray] raise [ValueError].  Otherwise the
    rows are added one after the other in [float64] and the sums are divided
    by the number of rows. *)
Definition np_mean {A} `{Float64Like A} (a : list (list A)) : result ndarray :=
  match a with
  | [] => Ok (Scalar (fdiv f_zero (of_Z 0)))
  | row :: rows =>
      if forallb (fun r => Nat.eqb (length r) (length row)) rows
      then
        let sums := fold_left (fun acc r => zip_with fadd acc (map as_float64 r))
                      rows (map as_float64 row) in
        Ok (Array1 (map (fun s => fdiv s (of_Z (Z.of_nat (length a)))) sums))
      else Raise ValueError
  end.

Definition np_round (a : ndarray) : ndarray :=
  match a with
  | Scalar x => Scalar (rint x)
  | Array1 xs => Array1 (map rint xs)
  end.

(** [np.round(np.mean(classifiers, axis=0))] *)
Definition do_majority {A} `{Float64Like A} (classifiers : list (list A))
    : result ndarray :=
  result_bind (np_mean classifiers) (fun m => Ok (np_round m)).

(** [rounded = np.round(np.mean(classifiers, axis=0)); return rounded] *)
Definition fuzzy_ensemble {A} `{Float64Like A} (classifiers : list (list A))
    : result ndarray :=
  let rounded := result_bind (np_mean classifiers) (fun m => Ok (np_round m)) in
  rounded.

(** [sum(pd.Series(a) == pd.Series(b)) / len(b)], the agreement rate the
    notebook prints: comparing series of different lengths raises
    [ValueError], and dividing the integer [0] by the integer [0] raises
    [ZeroDivisionError]. *)
Definition agreement_rate (a b : list bool) : result float :=
  if negb (Nat.eqb (length a) (length b)) then Raise ValueError
  else if Nat.eqb (length b) 0 then Raise ZeroDivisionError
  else Ok (fdiv (of_Z (Z.of_nat (length (filter (fun p => Bool.eqb p.1 p.2) (zip a b)))))
                (of_Z (Z.of_nat (length b)))).

(** ** Observations used in the statements *)

(** Number of classifiers voting true at position [i]. *)
Definition votes (classifiers : list (list bool)) (i : nat) : nat :=
  length (filter (fun r : list bool => r !! i = Some true) classifiers).

(** Fraction of the classifiers voting true at position [i]. *)
Definition vote_fraction (classifiers : list (list bool)) (i : nat) : Q :=
  Z.of_nat (votes classifiers i) # Pos.of_nat (length classifiers).

(** The bits a classifier ends up with when [flip_loop] runs over [xs]. *)
Fixpoint flipped (flip_ratio : float) (xs : list bool) (g : Generator)
    : list bool * Generator :=
  match xs with
  | [] => ([], g)
  | bit :: rest =>
      let '(r, g') := random g in
      let '(rest', g'') := flipped flip_ratio rest g' in
      ((if flt r flip_ratio then negb bit else bit) :: rest', g'')
  end.

(** The bits of [count] classifiers flipped one after the other. *)
Fixpoint flipped_many (flip_ratio : float) (xs : list bool) (count : nat)
    (g : Generator) : list (list bool) * Generator :=
  match count with
  | O => ([], g)
  | S count' =>
      let '(ys, g') := flipped flip_ratio xs g in
      let '(yss, g'') := flipped_many flip_ratio xs count' g' in
      (ys :: yss, g'')
  end.

(** What a synthesizer leaves behind when it starts in [w] from a reference
    sequence [xs]: [count] new list objects holding the flipped bits, every
    other object as it was, and the generator advanced. *)
Definition synthesized (w : world) (xs : list bool) (flip_ratio : float)
    (count : nat) (locs : list loc) (w' : world) : Prop :=
  length locs = count /\
  NoDup locs /\
  (forall l, l ∈ locs -> heap w !! l = None) /\
  Forall2 (fun l ys => heap w' !! l = Some ys) locs
    (flipped_many flip_ratio xs count (rng w)).1 /\
  (forall l, l ∉ locs -> heap w' !! l = heap w !! l) /\
  rng w' = (flipped_many flip_ratio xs count (rng w)).2.

(** Rounding a fuzzy value back to a boolean: [round(x) == 1]. *)
Definition round_to_bool (x : float) : bool := feq (rint x) f_one.

(** ** The two experiment drivers

    [test_majority] and [test_fuzzy] build an ensemble of three from the
    global [ground_truth] and aggregate it.  The global is a parameter here,
    and the value they hand to [classification_report] is what is returned;
    the printed report itself is not modelled. *)

Definition test_majority (ground_truth : loc) (flip_ratio : float)
    : M (result ndarray) :=
  classifiers <- create_classifiers ground_truth 3 flip_ratio ;;
  rows <- list_comp classifiers list_read ;;
  let ensemble_results := do_majority rows in
  ret ensemble_results.

Definition test_fuzzy (ground_truth : loc) (flip_ratio : float)
    : M (result ndarray) :=
  fuzzy_sys <- create_fuzzy_classifiers ground_truth 3 flip_ratio ;;
  let fuzz_ensemble_results := fuzzy_ensemble fuzzy_sys in
  ret fuzz_ensemble_results.

(** ** The draws of a generator, by position *)

(** The top 53 bits of the [j]-th word after the cursor: the [j]-th call of
    [rng.random()] from [g] returns this number times [2^-53]. *)
Definition draw_index (g : Generator) (j : nat) : Z :=
  Z.shiftr (words g (cursor g + j) mod 2 ^ 64) 11.

(** The generator after [n] draws. *)
Definition advance_by (n : nat) (g : Generator) : Generator :=
  {| words := words g; cursor := cursor g + n |}.

(** ** Partial sums of fuzzy values *)

(** What adding up at most [B] values of [fuzzy_ground] can give: zero, or
    a normal positive double no smaller than [2^-54] and no larger than
    [B]. *)
Definition bounded_by (B : Z) (x : float) : Prop :=
  x = f_zero \/
  exists m e, x = S754_finite false m e /\
    (2 ^ 52 <= Z.pos m < 2 ^ 53)%Z /\ (-106 <= e <= 0)%Z /\
    (Z.pos m <= B * 2 ^ (- e))%Z.

(** ** Concrete states for the examples *)

(** A generator that keeps returning the same 64-bit word. *)
Definition constant_rng (word : Z) : Generator :=
  {| words := fun _ => word; cursor := 0 |}.

(** A state with one list object, at address 1. *)
Definition one_list_world (xs : list bool) (word : Z) : world :=
  {| heap := {[ 1%positive := xs ]}; rng := constant_rng word |}.

(* ===================================================================== *)
(** * Sanity checks of the model                                          *)
(* ===================================================================== *)

(** [np.round] rounds ties to the even integer. *)
Example rint_ties :
  map rint [f_half; fdiv (of_Z 3) (of_Z 2); fdiv (of_Z 5) (of_Z 2); fdiv (of_Z 3) (of_Z 4)]
  = [f_zero; f_two; f_two; f_one].
Proof. reflexivity. Qed.

(** Integers are converted exactly up to [2^53], and rounded beyond. *)
Example of_Z_rounds :
  of_Z (2 ^ 53 + 1) = of_Z (2 ^ 53) /\ of_Z (2 ^ 53 + 3) = of_Z (2 ^ 53 + 4).
Proof. split; reflexivity. Qed.

(** The smallest, a middle and the largest double of [Generator.random]:
    [0.0], [0.5] and [1 - 2^-53]. *)
Example uint64_to_double_samples :
  uint64_to_double 0 = f_zero /\
  uint64_to_double (2 ^ 63) = f_half /\
  uint64_to_double (2 ^ 64 - 1) = S754_finite false 9007199254740991 (-53).
Proof. repeat split. Qed.

(** Three classifiers of three samples: a clear majority at each position. *)
Example do_majority_of_three :
  do_majority [[true; false; true]; [true; true; false]; [false; true; false]]
  = Ok (Array1 [f_one; f_one; f_zero]).
Proof. reflexivity. Qed.

(** Rows of differing lengths are refused by [np.asarray]. *)
Example do_majority_ragged :
  do_majority [[true; false; true]; [true; true]] = Raise ValueError.
Proof. reflexivity. Qed.

(** With every draw equal to [0.0] and [flip_ratio = 0.5], every bit of
    every copy is flipped, and the ground truth at address 1 stays. *)
Example create_classifiers_runs :
  match create_classifiers 1%positive 2 f_half (one_list_world [true; false] 0) with
  | Ok (locs, w') =>
      map (fun l => heap w' !! l) (1%positive :: locs)
      = [Some [true; false]; Some [false; true]; Some [false; true]]
  | Raise _ => False
  end.
Proof. vm_compute. reflexivity. Qed.

(* ===================================================================== *)
(** * Part II: facts about binary64 arithmetic                            *)
(* ===================================================================== *)

Section Float64Facts.
Local Open Scope Z_scope.

Lemma digits2_pos_size p : digits2_pos p = Pos.size p.
Proof. induction p; simpl; congruence. Qed.

Lemma Zdigits2_log2 n : 0 < n -> Zdigits2 n = Z.log2 n + 1.
Proof.
  destruct n as [|p|p]; try lia. intros _. simpl.
  rewrite digits2_pos_size. destruct p; simpl; lia.
Qed.

Lemma Zdigits2_bounds n k : 0 < k -> 2 ^ (k - 1) <= n < 2 ^ k -> Zdigits2 n = k.
Proof.
  intros Hk [H1 H2].
  assert (0 < n) by (pose proof (Z.pow_pos_nonneg 2 (k - 1)); lia).
  rewrite Zdigits2_log2 by done.
  assert (Z.log2 n = k - 1); [|lia].
  apply Z.log2_unique; [lia|]. replace (Z.succ (k - 1)) with k by lia. split; assumption.
Qed.

Lemma iter_pos_nat {A} (f : A -> A) n x :
  SpecFloat.iter_pos f n x = Nat.iter (Pos.to_nat n) f x.
Proof.
  revert x. induction n as [n IH|n IH|]; intros x; cbn [SpecFloat.iter_pos].
  - rewrite !IH, Pos2Nat.inj_xI.
    replace (S (2 * Pos.to_nat n))%nat with (Pos.to_nat n + (Pos.to_nat n + 1))%nat by lia.
    rewrite !Nat.iter_add. reflexivity.
  - rewrite !IH, Pos2Nat.inj_xO.
    replace (2 * Pos.to_nat n)%nat with (Pos.to_nat n + Pos.to_nat n)%nat by lia.
    rewrite Nat.iter_add. reflexivity.
  - reflexivity.
Qed.

Lemma shr_1_nonneg q r s :
  0 <= q ->
  shr_1 {| shr_m := q; shr_r := r; shr_s := s |}
  = {| shr_m := q / 2; shr_r := Z.odd q; shr_s := r || s |}.
Proof.
  intros Hq. rewrite <- Z.div2_div.
  destruct q as [|[a|a|]|a]; try lia; reflexivity.
Qed.

Lemma shr_1_frac p d : 0 <= p -> 0 < d -> shr_1 (frac_record p d) = frac_record p (2 * d).
Proof.
  intros Hp Hd. unfold frac_record.
  pose proof (Z.div_mod p d ltac:(lia)) as E.
  pose proof (Z.mod_pos_bound p d Hd) as B.
  pose proof (Z.div_pos p d Hp Hd) as Q.
  rewrite shr_1_nonneg by done.
  set (q := p / d) in *. set (r := p mod d) in *.
  pose proof (Z.div_mod q 2 ltac:(lia)) as E2.
  pose proof (Z.mod_pos_bound q 2 ltac:(lia)) as B2.
  assert (Hq2 : p / (2 * d) = q / 2).
  { symmetry. apply Z.div_unique with (r := (q mod 2) * d + r); [nia|nia]. }
  assert (Hr2 : p mod (2 * d) = (q mod 2) * d + r).
  { symmetry. apply Z.mod_unique with (q := q / 2); [nia|nia]. }
  rewrite Hq2, Hr2.
  assert (Hodd : q mod 2 = if Z.odd q then 1 else 0).
  { rewrite Zmod_odd. done. }
  f_equal.
  - destruct (Z.odd q); rewrite Hodd; symmetry; [apply Z.leb_le|apply Z.leb_gt]; lia.
  - destruct (Z.odd q); rewrite Hodd;
    repeat match goal with |- context [?a <=? ?b] => destruct (Z.leb_spec a b) 
                      | |- context [?a =? ?b] => destruct (Z.eqb_spec a b) end; simpl; try reflexivity; try lia.
Qed.

Lemma iter_shr_1_frac n p d :
  0 <= p -> 0 < d ->
  Nat.iter n shr_1 (frac_record p d) = frac_record p (d * 2 ^ Z.of_nat n).
Proof.
  intros Hp Hd. induction n as [|n IH].
  - simpl. f_equal. lia.
  - rewrite Nat.iter_succ, IH, shr_1_frac; [|lia|].
    + f_equal. rewrite Nat2Z.inj_succ, Z.pow_succ_r; lia.
    + pose proof (Z.pow_pos_nonneg 2 (Z.of_nat n)). lia.
Qed.

Lemma shr_frac p d e s :
  0 <= p -> 0 < d -> 0 <= s ->
  shr (frac_record p d) e s = (frac_record p (d * 2 ^ s), e + s).
Proof.
  intros Hp Hd Hs. destruct s as [|s|s]; try lia.
  - simpl. f_equal; [|lia]. f_equal. lia.
  - simpl. rewrite iter_pos_nat, iter_shr_1_frac by done.
    rewrite positive_nat_Z. done.
Qed.

Lemma new_location_frac p d :
  0 <= p -> 0 < d ->
  shr_record_of_loc (p / d) (new_location d (p mod d)) = frac_record p d.
Proof.
  intros Hp Hd. pose proof (Z.mod_pos_bound p d Hd) as B.
  unfold new_location, new_location_even, new_location_odd, frac_record.
  set (r := p mod d) in *.
  destruct (Z.even d) eqn:Ev.
  - destruct (Z.eqb_spec r 0) as [->|Hr]; simpl.
    + f_equal. symmetry. apply Z.leb_gt. lia.
    + destruct (Z.compare_spec (2 * r) d); simpl; f_equal;
      repeat match goal with |- context [?a <=? ?b] => destruct (Z.leb_spec a b) 
                      | |- context [?a =? ?b] => destruct (Z.eqb_spec a b) end; simpl; try reflexivity; try lia.
  - assert (Z.odd d = true) as Od by (rewrite <- Z.negb_even, Ev; done).
    apply Z.odd_spec in Od as [k Hk].
    destruct (Z.eqb_spec r 0) as [->|Hr]; simpl.
    + f_equal. symmetry. apply Z.leb_gt. lia.
    + destruct (Z.compare_spec (2 * r + 1) d); simpl; f_equal;
      repeat match goal with |- context [?a <=? ?b] => destruct (Z.leb_spec a b) 
                      | |- context [?a =? ?b] => destruct (Z.eqb_spec a b) end; simpl; try reflexivity; try lia.
Qed.

Lemma round_frac p d :
  0 <= p -> 0 < d ->
  round_nearest_even (shr_m (frac_record p d)) (loc_of_shr_record (frac_record p d))
  = rne_div p d.
Proof.
  intros Hp Hd. pose proof (Z.mod_pos_bound p d Hd) as B.
  unfold frac_record, rne_div. simpl. set (r := p mod d) in *.
  destruct (Z.compare_spec (2 * r) d);
  repeat match goal with |- context [?a <=? ?b] => destruct (Z.leb_spec a b) 
                      | |- context [?a =? ?b] => destruct (Z.eqb_spec a b) end; simpl; try reflexivity; try lia.
Qed.

Lemma rne_div_floor p d : p / d <= rne_div p d <= p / d + 1.
Proof.
  unfold rne_div. destruct (2 * (p mod d) ?= d); [destruct (Z.even _)|..]; lia.
Qed.

Lemma fexp_normal e : -1074 <= e - 53 -> fexp prec emax e = e - 53.
Proof. unfold fexp, emin, prec, emax. lia. Qed.

Lemma binary_round_aux_frac m l p d e s :
  shr_record_of_loc m l = frac_record p d -> m = p / d ->
  0 < d -> 0 <= s ->
  2 ^ 52 <= p / (d * 2 ^ s) < 2 ^ 53 ->
  -1074 <= e + s -> e + s + 1 <= 971 ->
  binary_round_aux prec emax false m e l = pack (rne_div p (d * 2 ^ s)) (e + s).
Proof.
  intros Hrec -> Hd Hs Hq Hlo Hhi.
  assert (H2s : 0 < 2 ^ s) by (apply Z.pow_pos_nonneg; lia).
  assert (Hp : 0 <= p).
  { destruct (Z.le_gt_cases 0 p) as [|Hn]; [done|].
    assert (p / (d * 2 ^ s) < 0) by (apply Z.div_lt_upper_bound; nia). lia. }
  assert (Hdig : Zdigits2 (p / d) = 53 + s).
  { apply Zdigits2_bounds; [lia|].
    rewrite <- Z.div_div in Hq by lia.
    replace (53 + s - 1) with (52 + s) by lia. rewrite !Z.pow_add_r by lia.
    pose proof (Z.div_mod (p / d) (2 ^ s) ltac:(lia)).
    pose proof (Z.mod_pos_bound (p / d) (2 ^ s) H2s). nia. }
  unfold binary_round_aux, shr_fexp.
  rewrite Hdig, Hrec.
  rewrite fexp_normal by lia.
  replace (53 + s + e - 53 - e) with s by lia.
  rewrite shr_frac by done.
  rewrite round_frac by lia.
  pose proof (rne_div_floor p (d * 2 ^ s)) as HQ.
  set (Q := rne_div p (d * 2 ^ s)) in *.
  unfold pack. destruct (Z.eqb_spec Q (2 ^ 53)) as [->|Hne].
  - replace (Zdigits2 (2 ^ 53)) with 54 by reflexivity.
    rewrite fexp_normal by lia.
    replace (54 + (e + s) - 53 - (e + s)) with 1 by lia.
    change (2 ^ 53) with 9007199254740992. change (2 ^ 52) with 4503599627370496.
    cbn -[Z.leb Z.add].
    destruct (Z.leb_spec (e + s + 1) (emax - prec)); [reflexivity|unfold emax, prec in *; lia].
  - rewrite (Zdigits2_bounds Q 53) by lia.
    rewrite fexp_normal by lia.
    replace (53 + (e + s) - 53 - (e + s)) with 0 by lia.
    cbn -[Z.leb Z.add Z.pow].
    destruct Q as [|Q|Q]; try lia.
    destruct (Z.leb_spec (e + s) (emax - prec)); [reflexivity|unfold emax, prec in *; lia].
Qed.

Lemma binary_round_aux_div p d e s :
  0 < d -> 0 <= s ->
  2 ^ 52 <= p / (d * 2 ^ s) < 2 ^ 53 ->
  -1074 <= e + s -> e + s + 1 <= 971 ->
  binary_round_aux prec emax false (p / d) e (new_location d (p mod d))
  = pack (rne_div p (d * 2 ^ s)) (e + s).
Proof.
  intros Hd Hs Hq Hlo Hhi.
  assert (0 <= p).
  { destruct (Z.le_gt_cases 0 p) as [|Hn]; [done|].
    assert (0 < 2 ^ s) by (apply Z.pow_pos_nonneg; lia).
    assert (p / (d * 2 ^ s) < 0) by (apply Z.div_lt_upper_bound; nia). lia. }
  apply binary_round_aux_frac; auto using new_location_frac.
Qed.

Lemma binary_round_aux_exact m e s :
  0 <= s ->
  2 ^ 52 <= m / 2 ^ s < 2 ^ 53 ->
  -1074 <= e + s -> e + s + 1 <= 971 ->
  binary_round_aux prec emax false m e loc_Exact
  = pack (rne_div m (2 ^ s)) (e + s).
Proof.
  intros Hs Hq Hlo Hhi.
  replace (2 ^ s) with (1 * 2 ^ s) in * by lia.
  apply binary_round_aux_frac; try done.
  - unfold frac_record. rewrite Z.div_1_r, Z.mod_1_r. reflexivity.
  - rewrite Z.div_1_r. reflexivity.
Qed.

Lemma rne_div_1 a : rne_div a 1 = a.
Proof. unfold rne_div. rewrite Z.div_1_r, Z.mod_1_r. reflexivity. Qed.

Lemma rne_div_exact a d : 0 < d -> rne_div (a * d) d = a.
Proof.
  intros Hd. unfold rne_div. rewrite Z.div_mul, Z.mod_mul by lia.
  destruct d; try lia. reflexivity.
Qed.

Lemma rne_div_scale a b c : 0 < b -> 0 < c -> rne_div (a * c) (b * c) = rne_div a b.
Proof.
  intros Hb Hc. unfold rne_div.
  rewrite Z.div_mul_cancel_r, Z.mul_mod_distr_r by lia.
  replace (2 * (a mod b * c)) with (2 * (a mod b) * c) by lia.
  destruct (Z.compare_spec (2 * (a mod b) * c) (b * c));
    destruct (Z.compare_spec (2 * (a mod b)) b); try nia; reflexivity.
Qed.

Lemma pos_iter_xO m d : Z.pos (Pos.iter xO m d) = Z.pos m * 2 ^ Z.pos d.
Proof.
  rewrite <- Z.shiftl_mul_pow2 by lia. simpl.
  apply (Pos.iter_swap_gen _ _ Z.pos xO (Z.mul 2)). reflexivity.
Qed.

Lemma shl_align_spec m e e' :
  e' <= e ->
  Z.pos (shl_align m e e').1 = Z.pos m * 2 ^ (e - e') /\ (shl_align m e e').2 = e'.
Proof.
  intros He. unfold shl_align.
  destruct (e' - e) as [|d|d] eqn:E; try lia; simpl.
  - replace (e - e') with 0 by lia. lia.
  - rewrite pos_iter_xO. replace (e - e') with (Z.pos d) by lia. done.
Qed.

Lemma Zdigits2_spec c :
  0 < c -> 0 < Zdigits2 c /\ 2 ^ (Zdigits2 c - 1) <= c < 2 ^ Zdigits2 c.
Proof.
  intros Hc. rewrite Zdigits2_log2 by done.
  pose proof (Z.log2_nonneg c). pose proof (Z.log2_spec c Hc).
  replace (Z.log2 c + 1 - 1) with (Z.log2 c) by lia.
  replace (Z.log2 c + 1) with (Z.succ (Z.log2 c)) by lia. lia.
Qed.

Lemma Zdigits2_le_53 c : 0 < c < 2 ^ 53 -> Zdigits2 c <= 53.
Proof.
  intros [H0 H1]. destruct (Zdigits2_spec c H0) as (Hn & Hlo & _).
  destruct (Z.le_gt_cases (Zdigits2 c) 53) as [|Hgt]; [done|].
  assert (2 ^ 53 <= 2 ^ (Zdigits2 c - 1)) by (apply Z.pow_le_mono_r; lia). lia.
Qed.

Lemma mant_bounds c : 0 < c < 2 ^ 53 -> 2 ^ 52 <= mant c < 2 ^ 53.
Proof.
  intros Hc. destruct (Zdigits2_spec c) as (Hn & Hlo & Hhi); [lia|].
  pose proof (Zdigits2_le_53 c Hc). unfold mant.
  set (n := Zdigits2 c) in *.
  assert (E52 : 2 ^ 52 = 2 ^ (n - 1) * 2 ^ (53 - n)).
  { rewrite <- Z.pow_add_r by lia. f_equal. lia. }
  assert (E53 : 2 ^ 53 = 2 ^ n * 2 ^ (53 - n)).
  { rewrite <- Z.pow_add_r by lia. f_equal. lia. }
  assert (0 < 2 ^ (53 - n)) by (apply Z.pow_pos_nonneg; lia).
  rewrite E52, E53. nia.
Qed.

Lemma binary_normalize_shr M e s :
  0 <= s ->
  2 ^ 52 <= M / 2 ^ s < 2 ^ 53 ->
  -1074 <= e + s -> e + s + 1 <= 971 ->
  binary_normalize prec emax M e false = pack (rne_div M (2 ^ s)) (e + s).
Proof.
  intros Hs Hq Hlo Hhi.
  assert (H2s : 0 < 2 ^ s) by (apply Z.pow_pos_nonneg; lia).
  assert (HM : 2 ^ (52 + s) <= M < 2 ^ (53 + s)).
  { rewrite !Z.pow_add_r by lia.
    pose proof (Z.div_mod M (2 ^ s) ltac:(lia)).
    pose proof (Z.mod_pos_bound M (2 ^ s) H2s). nia. }
  assert (0 < M) by (pose proof (Z.pow_pos_nonneg 2 (52 + s)); lia).
  destruct M as [|m|m]; try lia.
  unfold binary_normalize, binary_round.
  change (Z.pos (digits2_pos m)) with (Zdigits2 (Z.pos m)).
  rewrite (Zdigits2_bounds (Z.pos m) (53 + s)) by (try lia; replace (53 + s - 1) with (52 + s) by lia; done).
  rewrite fexp_normal by lia.
  unfold shl_align. destruct (53 + s + e - 53 - e) eqn:E; try lia;
    apply binary_round_aux_exact; auto.
Qed.

Lemma binary_normalize_shl M e s :
  0 <= s ->
  2 ^ 52 <= M * 2 ^ s < 2 ^ 53 ->
  -1074 <= e - s -> e - s + 1 <= 971 ->
  binary_normalize prec emax M e false = S754_finite false (Z.to_pos (M * 2 ^ s)) (e - s).
Proof.
  intros Hs HM Hlo Hhi.
  assert (H2s : 0 < 2 ^ s) by (apply Z.pow_pos_nonneg; lia).
  assert (0 < M) by nia.
  assert (s <= 52).
  { destruct (Z.le_gt_cases s 52); [done|].
    assert (2 ^ 53 <= 2 ^ s) by (apply Z.pow_le_mono_r; lia). nia. }
  assert (Hd : Zdigits2 M = 53 - s).
  { apply Zdigits2_bounds; [lia|].
    assert (2 ^ 52 = 2 ^ (53 - s - 1) * 2 ^ s) as E52.
    { rewrite <- Z.pow_add_r by lia. f_equal. lia. }
    assert (2 ^ 53 = 2 ^ (53 - s) * 2 ^ s) as E53.
    { rewrite <- Z.pow_add_r by lia. f_equal. lia. }
    rewrite E52, E53 in HM. nia. }
  destruct M as [|m|m]; try lia.
  unfold binary_normalize, binary_round.
  change (Z.pos (digits2_pos m)) with (Zdigits2 (Z.pos m)).
  rewrite Hd, fexp_normal by lia.
  destruct (shl_align_spec m e (53 - s + e - 53)) as [Hm He]; [lia|].
  destruct (shl_align m e (53 - s + e - 53)) as [m' e']. simpl in Hm, He. subst e'.
  replace (e - (53 - s + e - 53)) with s in Hm by lia.
  rewrite (binary_round_aux_exact _ _ 0); try lia.
  - rewrite Hm. change (2 ^ 0) with 1. rewrite rne_div_1.
    unfold pack. destruct (Z.eqb_spec (Z.pos m * 2 ^ s) (2 ^ 53)); [lia|].
    f_equal. lia.
  - change (2 ^ 0) with 1. rewrite Z.div_1_r. lia.
Qed.

Lemma of_Z_pos c :
  0 < c < 2 ^ 53 -> of_Z c = S754_finite false (Z.to_pos (mant c)) (expo c).
Proof.
  intros Hc. pose proof (mant_bounds c Hc). pose proof (Zdigits2_le_53 c Hc).
  destruct (Zdigits2_spec c) as (Hn & _); [lia|].
  unfold of_Z. rewrite (binary_normalize_shl c 0 (53 - Zdigits2 c)); try lia.
  - unfold expo. f_equal. lia.
  - exact H.
Qed.

Lemma pack_finite Q e :
  2 ^ 52 <= Q < 2 ^ 53 -> pack Q e = S754_finite false (Z.to_pos Q) e.
Proof. intros HQ. unfold pack. destruct (Z.eqb_spec Q (2 ^ 53)); [lia|done]. Qed.

Lemma pack_carry e : pack (2 ^ 53) e = S754_finite false (Z.to_pos (2 ^ 52)) (e + 1).
Proof. reflexivity. Qed.

(** A positive dyadic number that fits in 53 bits is normalised without
    rounding, whichever way its mantissa has to be shifted. *)
Lemma binary_normalize_canon M e Q E :
  2 ^ 52 <= Q < 2 ^ 53 ->
  (e <= E /\ M = Q * 2 ^ (E - e)) \/ (E <= e /\ Q = M * 2 ^ (e - E)) ->
  -1074 <= E -> E + 1 <= 971 ->
  binary_normalize prec emax M e false = S754_finite false (Z.to_pos Q) E.
Proof.
  intros HQ [[He ->]|[He HM]] Hlo Hhi.
  - assert (0 < 2 ^ (E - e)) by (apply Z.pow_pos_nonneg; lia).
    assert (2 ^ 52 <= Q * 2 ^ (E - e) / 2 ^ (E - e) < 2 ^ 53)
      by (rewrite Z.div_mul by lia; done).
    rewrite (binary_normalize_shr _ _ (E - e)) by (done || lia).
    rewrite rne_div_exact by done. rewrite pack_finite by done. f_equal. lia.
  - assert (2 ^ 52 <= M * 2 ^ (e - E) < 2 ^ 53) by (rewrite <- HM; done).
    rewrite (binary_normalize_shl _ _ (e - E)) by (done || lia).
    rewrite <- HM. f_equal. lia.
Qed.

Lemma fadd_finite mx ex my ey :
  fadd (S754_finite false mx ex) (S754_finite false my ey)
  = binary_normalize prec emax
      (Z.pos mx * 2 ^ (ex - Z.min ex ey) + Z.pos my * 2 ^ (ey - Z.min ex ey))
      (Z.min ex ey) false.
Proof.
  unfold fadd, SFadd, cond_Zopp.
  destruct (shl_align_spec mx ex (Z.min ex ey)) as [-> _]; [lia|].
  destruct (shl_align_spec my ey (Z.min ex ey)) as [-> _]; [lia|].
  reflexivity.
Qed.

Lemma of_Z_0 : of_Z 0 = f_zero.
Proof. reflexivity. Qed.

Lemma of_Z_1 : of_Z 1 = f_one.
Proof. reflexivity. Qed.

Lemma mant_expo_value c :
  0 < c < 2 ^ 53 -> mant c * 2 ^ (expo c + 52) = c * 2 ^ 52.
Proof.
  intros Hc. pose proof (Zdigits2_le_53 c Hc).
  destruct (Zdigits2_spec c) as (Hn & _); [lia|].
  unfold mant, expo. rewrite <- Z.mul_assoc, <- Z.pow_add_r by lia.
  do 2 f_equal. lia.
Qed.

Lemma fadd_of_Z_one c :
  0 <= c -> c + 1 < 2 ^ 53 -> fadd (of_Z c) f_one = of_Z (c + 1).
Proof.
  intros H0 H1. destruct (Z.eq_dec c 0) as [->|Hne]; [reflexivity|].
  rewrite (of_Z_pos c), (of_Z_pos (c + 1)) by lia.
  pose proof (mant_bounds c ltac:(lia)) as Hm.
  pose proof (mant_bounds (c + 1) ltac:(lia)) as Hm'.
  pose proof (Zdigits2_le_53 c ltac:(lia)).
  pose proof (Zdigits2_le_53 (c + 1) ltac:(lia)).
  destruct (Zdigits2_spec c) as (Hn & _); [lia|].
  destruct (Zdigits2_spec (c + 1)) as (Hn' & _); [lia|].
  unfold f_one. rewrite fadd_finite.
  assert (Emin : Z.min (expo c) (-52) = -52) by (unfold expo; lia).
  rewrite Emin. apply binary_normalize_canon; unfold expo in *; try lia.
  left. split; [lia|].
  rewrite Z2Pos.id by lia.
  replace (Zdigits2 c - 53 - -52) with (Zdigits2 c - 53 + 52) by lia.
  replace (Zdigits2 (c + 1) - 53 - -52) with (Zdigits2 (c + 1) - 53 + 52) by lia.
  fold (expo c). fold (expo (c + 1)).
  rewrite !mant_expo_value by lia. change (2 ^ (-52 - -52)) with 1.
  change (Z.pos 4503599627370496) with (2 ^ 52). lia.
Qed.

Lemma fadd_zero_r x : x <> S754_zero true -> fadd x f_zero = x.
Proof. destruct x as [[]| | |]; try done. Qed.

Lemma of_Z_not_negzero c : 0 <= c -> of_Z c <> S754_zero true.
Proof.
  intros Hc. destruct c as [|c|c]; [done| |lia].
  unfold of_Z, binary_normalize, binary_round, binary_round_aux.
  repeat case_match; done.
Qed.

Lemma fdiv_finite mx ex my ey s :
  2 ^ 52 <= Z.pos mx < 2 ^ 53 ->
  2 ^ 52 <= Z.pos my < 2 ^ 53 ->
  0 <= s ->
  2 ^ 52 <= (Z.pos mx * 2 ^ 53) / (Z.pos my * 2 ^ s) < 2 ^ 53 ->
  -1074 <= ex - ey - 53 -> ex - ey - 53 + s + 1 <= 971 ->
  fdiv (S754_finite false mx ex) (S754_finite false my ey)
  = pack (rne_div (Z.pos mx * 2 ^ 53) (Z.pos my * 2 ^ s)) (ex - ey - 53 + s).
Proof.
  intros Hx Hy Hs Hq Hlo Hhi.
  unfold fdiv, SFdiv, SFdiv_core_binary.
  rewrite (Zdigits2_bounds (Z.pos mx) 53), (Zdigits2_bounds (Z.pos my) 53) by (try lia; done).
  rewrite fexp_normal by lia.
  replace (Z.min (53 + ex - (53 + ey) - 53) (ex - ey)) with (ex - ey - 53) by lia.
  replace (ex - ey - (ex - ey - 53)) with 53 by lia.
  rewrite Z.shiftl_mul_pow2 by lia.
  set (P := Z.pos mx * 2 ^ 53) in *.
  assert (E : Z.div_eucl P (Z.pos my) = (P / Z.pos my, P mod Z.pos my)).
  { unfold Z.div, Z.modulo. destruct (Z.div_eucl _ _). reflexivity. }
  rewrite E. apply binary_round_aux_div; (done || lia).
Qed.

Lemma fdiv_two m e :
  2 ^ 52 <= Z.pos m < 2 ^ 53 -> -1074 <= e - 2 -> e <= 971 ->
  fdiv (S754_finite false m e) f_two = S754_finite false m (e - 1).
Proof.
  intros Hm Hlo Hhi. unfold f_two.
  assert (Hr : rne_div (Z.pos m * 2 ^ 53) (4503599627370496 * 2 ^ 1) = Z.pos m).
  { change (4503599627370496 * 2 ^ 1) with (2 ^ 53). apply rne_div_exact. lia. }
  assert (Hq : (Z.pos m * 2 ^ 53) / (4503599627370496 * 2 ^ 1) = Z.pos m).
  { change (4503599627370496 * 2 ^ 1) with (2 ^ 53). apply Z.div_mul. lia. }
  rewrite (fdiv_finite _ _ _ _ 1); rewrite ?Hq; try lia.
  rewrite Hr, pack_finite by done. f_equal. lia.
Qed.

(** *** The doubles [Generator.random] returns *)

Lemma shiftr_11_bounds u : 0 <= u < 2 ^ 64 -> 0 <= Z.shiftr u 11 < 2 ^ 53.
Proof.
  intros Hu. rewrite Z.shiftr_div_pow2 by lia. split.
  - apply Z.div_pos; lia.
  - apply Z.div_lt_upper_bound; [lia|]. change (2 ^ 11 * 2 ^ 53) with (2 ^ 64). lia.
Qed.

Lemma uint64_to_double_unit u :
  0 <= u < 2 ^ 64 -> uint64_to_double u = unit_float (Z.shiftr u 11).
Proof.
  intros Hu. pose proof (shiftr_11_bounds u Hu) as Hk.
  unfold uint64_to_double, unit_float. set (k := Z.shiftr u 11) in *.
  replace (fdiv f_one (of_Z 9007199254740992))
    with (S754_finite false 4503599627370496 (-105)) by (vm_compute; reflexivity).
  destruct (Z.eqb_spec k 0) as [->|Hne]; [reflexivity|].
  rewrite of_Z_pos by lia. pose proof (mant_bounds k ltac:(lia)) as Hm.
  pose proof (Zdigits2_le_53 k ltac:(lia)).
  destruct (Zdigits2_spec k) as (Hn & _); [lia|].
  unfold fmul, SFmul. simpl xorb.
  rewrite (binary_round_aux_exact _ _ 52); rewrite ?Pos2Z.inj_mul, ?Z2Pos.id by lia;
    change (Z.pos 4503599627370496) with (2 ^ 52); rewrite ?Z.div_mul by lia;
    unfold expo in *; try lia.
  rewrite rne_div_exact, pack_finite by lia. f_equal. lia.
Qed.

Lemma random_unit g :
  exists k, 0 <= k < 2 ^ 53 /\ (random g).1 = unit_float k.
Proof.
  assert (Hu : 0 <= next_uint64 g < 2 ^ 64) by (apply Z.mod_pos_bound; lia).
  exists (Z.shiftr (next_uint64 g) 11). split.
  - by apply shiftr_11_bounds.
  - by apply uint64_to_double_unit.
Qed.

Lemma unit_float_cases k :
  0 <= k < 2 ^ 53 ->
  unit_float k = f_zero \/
  exists m e, unit_float k = S754_finite false m e /\
              2 ^ 52 <= Z.pos m < 2 ^ 53 /\ -105 <= e <= -53.
Proof.
  intros Hk. unfold unit_float. destruct (Z.eqb_spec k 0); [by left|right].
  pose proof (mant_bounds k ltac:(lia)) as Hm.
  pose proof (Zdigits2_le_53 k ltac:(lia)).
  destruct (Zdigits2_spec k) as (Hn & _); [lia|].
  eexists _, _. split; [reflexivity|]. rewrite Z2Pos.id by lia. unfold expo. lia.
Qed.

(** *** Comparisons *)

Lemma flt_finite m1 e1 m2 e2 :
  e1 < e2 -> flt (S754_finite false m1 e1) (S754_finite false m2 e2) = true.
Proof. intros He. unfold flt, SFltb, SFcompare. by rewrite (proj2 (Z.compare_lt_iff _ _) He). Qed.

Lemma fle_finite_exp m1 e1 m2 e2 :
  e1 < e2 -> fle (S754_finite false m1 e1) (S754_finite false m2 e2) = true.
Proof. intros He. unfold fle, SFleb, SFcompare. by rewrite (proj2 (Z.compare_lt_iff _ _) He). Qed.

Lemma fle_finite_mant m1 m2 e :
  (m1 <= m2)%positive -> fle (S754_finite false m1 e) (S754_finite false m2 e) = true.
Proof.
  intros Hm. unfold fle, SFleb, SFcompare. rewrite Z.compare_refl.
  change (Pos.compare_cont Eq m1 m2) with (m1 ?= m2)%positive.
  destruct (Pos.compare_spec m1 m2); try done. lia.
Qed.

Lemma unit_float_lt_one k : 0 <= k < 2 ^ 53 -> flt (unit_float k) f_one = true.
Proof.
  intros Hk. destruct (unit_float_cases k Hk) as [->|(m & e & -> & Hm & He)]; [done|].
  apply flt_finite. lia.
Qed.

Lemma unit_float_not_neg k : 0 <= k < 2 ^ 53 -> flt (unit_float k) f_zero = false.
Proof.
  intros Hk. by destruct (unit_float_cases k Hk) as [->|(m & e & -> & Hm & He)].
Qed.

(** *** The two branches of [fuzzy_ground] *)

Lemma fdiv_pack_two Q e :
  2 ^ 52 <= Q <= 2 ^ 53 -> -1074 <= e - 2 -> e + 1 <= 971 ->
  fdiv (pack Q e) f_two = pack Q (e - 1).
Proof.
  intros HQ Hlo Hhi. unfold pack. destruct (Z.eqb_spec Q (2 ^ 53)).
  - rewrite fdiv_two by (try lia; done). f_equal. lia.
  - assert (Z.pos (Z.to_pos Q) = Q) by (apply Z2Pos.id; lia).
    rewrite fdiv_two by lia. done.
Qed.

Lemma fuzzy_false_value k :
  0 <= k < 2 ^ 53 ->
  fdiv (unit_float k) f_two = f_zero \/
  exists m e, fdiv (unit_float k) f_two = S754_finite false m e /\
              2 ^ 52 <= Z.pos m < 2 ^ 53 /\ -106 <= e <= -54.
Proof.
  intros Hk. destruct (unit_float_cases k Hk) as [->|(m & e & -> & Hm & He)]; [by left|right].
  exists m, (e - 1). rewrite fdiv_two by lia. repeat split; lia.
Qed.

Lemma fadd_unit_one k :
  0 <= k < 2 ^ 53 ->
  fadd (unit_float k) f_one = pack (rne_div (k + 2 ^ 53) 2) (-52).
Proof.
  intros Hk. unfold unit_float. destruct (Z.eqb_spec k 0) as [->|Hne]; [reflexivity|].
  pose proof (mant_bounds k ltac:(lia)) as Hm.
  pose proof (Zdigits2_le_53 k ltac:(lia)).
  destruct (Zdigits2_spec k) as (Hn & _); [lia|].
  unfold f_one. rewrite fadd_finite, Z2Pos.id by lia.
  unfold expo, mant in *. set (n := Zdigits2 k) in *.
  replace (Z.min (n - 53 - 53) (-52)) with (n - 106) by lia.
  replace (n - 53 - 53 - (n - 106)) with 0 by lia.
  replace (-52 - (n - 106)) with (1 + (53 - n)) by lia.
  rewrite Z.pow_add_r by lia. set (a := 2 ^ (53 - n)) in *.
  assert (Ha : 0 < a) by (apply Z.pow_pos_nonneg; lia).
  change (Z.pos 4503599627370496) with (2 ^ 52). change (2 ^ 0) with 1.
  replace (k * a * 1 + 2 ^ 52 * (2 ^ 1 * a)) with ((k + 2 ^ 53) * a) by lia.
  assert (E : 2 ^ (54 - n) = 2 * a).
  { unfold a. replace (54 - n) with (1 + (53 - n)) by lia. rewrite Z.pow_add_r by lia. done. }
  assert (Hq : 2 ^ 52 <= (k + 2 ^ 53) * a / 2 ^ (54 - n) < 2 ^ 53).
  { rewrite E, Z.div_mul_cancel_r by lia. split.
    - apply Z.div_le_lower_bound; lia.
    - apply Z.div_lt_upper_bound; lia. }
  rewrite (binary_normalize_shr _ _ (54 - n)) by (done || lia).
  rewrite E, rne_div_scale by lia. f_equal. lia.
Qed.

Lemma rne_div_unit_bounds k :
  0 <= k < 2 ^ 53 -> 2 ^ 52 <= rne_div (k + 2 ^ 53) 2 <= 2 ^ 53.
Proof.
  intros Hk. pose proof (rne_div_floor (k + 2 ^ 53) 2).
  assert (2 ^ 52 <= (k + 2 ^ 53) / 2) by (apply Z.div_le_lower_bound; lia).
  assert ((k + 2 ^ 53) / 2 < 2 ^ 53) by (apply Z.div_lt_upper_bound; lia). lia.
Qed.

Lemma fuzzy_true_value k :
  0 <= k < 2 ^ 53 ->
  fdiv (fadd (unit_float k) f_one) f_two = pack (rne_div (k + 2 ^ 53) 2) (-53).
Proof.
  intros Hk. rewrite fadd_unit_one by done.
  rewrite fdiv_pack_two by (try lia; by apply rne_div_unit_bounds). done.
Qed.

(** *** Rounding to an integer *)

Lemma rint_zero : rint f_zero = f_zero.
Proof. reflexivity. Qed.

Lemma rint_small m e :
  e < 0 -> 2 * Z.pos m <= 2 ^ (- e) -> rint (S754_finite false m e) = f_zero.
Proof.
  intros He Hm. unfold rint. destruct (Z.leb_spec 0 e); [lia|].
  unfold rne_div. rewrite Z.div_small, Z.mod_small by lia.
  destruct (Z.compare_spec (2 * Z.pos m) (2 ^ (- e))); try lia; reflexivity.
Qed.

Lemma rint_pack_small Q e :
  2 ^ 52 <= Q <= 2 ^ 53 -> e <= -54 -> rint (pack Q e) = f_zero.
Proof.
  intros HQ He. unfold pack. destruct (Z.eqb_spec Q (2 ^ 53)).
  - apply rint_small; [lia|].
    assert (2 ^ 53 <= 2 ^ (- (e + 1))) by (apply Z.pow_le_mono_r; lia). lia.
  - apply rint_small; [lia|]. rewrite Z2Pos.id by lia.
    assert (2 ^ 54 <= 2 ^ (- e)) by (apply Z.pow_le_mono_r; lia). lia.
Qed.

Lemma rint_half : rint f_half = f_zero.
Proof. reflexivity. Qed.

Lemma rint_one : rint f_one = f_one.
Proof. reflexivity. Qed.

Lemma rint_pack_large Q :
  2 ^ 52 < Q <= 2 ^ 53 -> rint (pack Q (-53)) = f_one.
Proof.
  intros HQ. unfold pack. destruct (Z.eqb_spec Q (2 ^ 53)); [reflexivity|].
  unfold rint. simpl Z.leb. cbv iota. rewrite Z2Pos.id by lia.
  unfold rne_div. change (2 ^ (- -53)) with (2 ^ 53).
  rewrite Z.div_small, Z.mod_small by lia.
  destruct (Z.compare_spec (2 * Q) (2 ^ 53)); try lia. reflexivity.
Qed.

Lemma fle_half_pack Q : 2 ^ 52 <= Q <= 2 ^ 53 -> fle f_half (pack Q (-53)) = true.
Proof.
  intros HQ. unfold pack, f_half. destruct (Z.eqb_spec Q (2 ^ 53)).
  - by apply fle_finite_exp.
  - apply fle_finite_mant. lia.
Qed.

Lemma fle_pack_one Q : 2 ^ 52 <= Q <= 2 ^ 53 -> fle (pack Q (-53)) f_one = true.
Proof.
  intros HQ. unfold pack, f_one. destruct (Z.eqb_spec Q (2 ^ 53)).
  - by apply fle_finite_mant.
  - by apply fle_finite_exp.
Qed.

Lemma rne_div_above p d q :
  0 < d -> (2 * q + 1) * d < 2 * p -> q + 1 <= rne_div p d.
Proof.
  intros Hd H. unfold rne_div.
  pose proof (Z.div_mod p d ltac:(lia)). pose proof (Z.mod_pos_bound p d Hd).
  destruct (Z.compare_spec (2 * (p mod d)) d); [destruct (Z.even _)|..]; nia.
Qed.

(** *** Quotients of two integers below [2^53] *)

Lemma fdiv_of_Z c m :
  0 < c < 2 ^ 53 -> 0 < m < 2 ^ 53 ->
  let s := if mant c <? mant m then 0 else 1 in
  fdiv (of_Z c) (of_Z m)
  = pack (rne_div (mant c * 2 ^ 53) (mant m * 2 ^ s)) (Zdigits2 c - Zdigits2 m - 53 + s)
  /\ 2 ^ 52 <= rne_div (mant c * 2 ^ 53) (mant m * 2 ^ s) <= 2 ^ 53.
Proof.
  intros Hc Hm s.
  pose proof (mant_bounds c Hc) as Bc. pose proof (mant_bounds m Hm) as Bm.
  pose proof (Zdigits2_le_53 c Hc). pose proof (Zdigits2_le_53 m Hm).
  destruct (Zdigits2_spec c) as (Hnc & _); [lia|].
  destruct (Zdigits2_spec m) as (Hnm & _); [lia|].
  assert (Hs : 0 <= s <= 1) by (unfold s; destruct (_ <? _); lia).
  assert (Hq : 2 ^ 52 <= mant c * 2 ^ 53 / (mant m * 2 ^ s) < 2 ^ 53).
  { unfold s. destruct (Z.ltb_spec (mant c) (mant m)).
    - change (2 ^ 0) with 1. split.
      + apply Z.div_le_lower_bound; lia.
      + apply Z.div_lt_upper_bound; lia.
    - change (2 ^ 1) with 2. split.
      + apply Z.div_le_lower_bound; lia.
      + apply Z.div_lt_upper_bound; lia. }
  split.
  - rewrite (of_Z_pos c), (of_Z_pos m) by done.
    rewrite (fdiv_finite _ _ _ _ s); rewrite ?Z2Pos.id; unfold expo; try lia.
    f_equal. lia.
  - pose proof (rne_div_floor (mant c * 2 ^ 53) (mant m * 2 ^ s)). lia.
Qed.

Lemma fdiv_of_Z_self n : 0 < n < 2 ^ 53 -> fdiv (of_Z n) (of_Z n) = f_one.
Proof.
  intros Hn. destruct (fdiv_of_Z n n Hn Hn) as [-> _].
  pose proof (mant_bounds n Hn).
  rewrite Z.ltb_irrefl.
  replace (mant n * 2 ^ 53) with (2 ^ 52 * (mant n * 2 ^ 1)) by lia.
  rewrite rne_div_exact by lia. 
  replace (Zdigits2 n - Zdigits2 n - 53 + 1) with (-52) by lia. reflexivity.
Qed.

Lemma Zdigits2_mono c m : 0 < c <= m -> Zdigits2 c <= Zdigits2 m.
Proof.
  intros H. rewrite !Zdigits2_log2 by lia.
  pose proof (Z.log2_le_mono c m). lia.
Qed.

Lemma mant_same_digits c m :
  0 < c < 2 ^ 53 -> Zdigits2 c = Zdigits2 m -> mant c = c * 2 ^ (53 - Zdigits2 m).
Proof. intros _ E. unfold mant. by rewrite E. Qed.

Lemma mant_pred_digits c m :
  0 < c < 2 ^ 53 -> 0 < m < 2 ^ 53 -> Zdigits2 c = Zdigits2 m - 1 ->
  mant c = 2 * c * 2 ^ (53 - Zdigits2 m).
Proof.
  intros Hc Hm E. pose proof (Zdigits2_le_53 m Hm). unfold mant. rewrite E.
  replace (53 - (Zdigits2 m - 1)) with (1 + (53 - Zdigits2 m)) by lia.
  rewrite Z.pow_add_r by lia. lia.
Qed.

(** The mean of [m] votes of which [c] are true, rounded by [np.round]. *)
Lemma rint_vote_fraction c m :
  0 <= c <= m -> 0 < m < 2 ^ 53 ->
  rint (fdiv (of_Z c) (of_Z m)) = if m <? 2 * c then f_one else f_zero.
Proof.
  intros Hc Hm.
  destruct (Z.eq_dec c 0) as [->|Hc0].
  { rewrite (of_Z_pos m) by done. destruct (Z.ltb_spec m (2 * 0)); [lia|reflexivity]. }
  assert (Hc' : 0 < c < 2 ^ 53) by lia.
  destruct (fdiv_of_Z c m Hc' Hm) as [-> HQ].
  pose proof (mant_bounds c Hc') as Bc. pose proof (mant_bounds m Hm) as Bm.
  pose proof (Zdigits2_le_53 m Hm) as Hm53.
  destruct (Zdigits2_spec c) as (Hnc & Hclo & Hchi); [lia|].
  destruct (Zdigits2_spec m) as (Hnm & Hmlo & Hmhi); [lia|].
  pose proof (Zdigits2_mono c m ltac:(lia)) as Hmono.
  set (nc := Zdigits2 c) in *. set (nm := Zdigits2 m) in *.
  set (a := 2 ^ (53 - nm)).
  assert (Ha : 0 < a) by (apply Z.pow_pos_nonneg; lia).
  assert (Em : mant m = m * a) by reflexivity.
  assert (Hnear : m < 2 * c -> nm - 1 <= nc).
  { intros Hlt. destruct (Z.le_gt_cases (nm - 1) nc); [done|].
    assert (2 ^ (nc + 1) <= 2 ^ (nm - 1)) by (apply Z.pow_le_mono_r; lia).
    assert (2 ^ (nc + 1) = 2 * 2 ^ nc) as E2.
    { rewrite <- Z.pow_succ_r by lia. f_equal. }
    lia. }
  assert (Hfar : 2 * c <= m -> nc < nm).
  { intros Hle. destruct (Z.lt_ge_cases nc nm); [done|].
    replace (nc - 1) with (nm - 1) in Hclo by lia.
    assert (2 ^ nm = 2 * 2 ^ (nm - 1)) as E2.
    { rewrite <- Z.pow_succ_r by lia. f_equal. lia. }
    lia. }
  destruct (Z.ltb_spec m (2 * c)) as [Hmaj|Hmin].
  - (* a strict majority of true votes *)
    specialize (Hnear Hmaj).
    assert (Ec : mant c = c * a \/ mant c = 2 * c * a).
    { destruct (Z.eq_dec nc nm) as [E|E].
      - left. by apply mant_same_digits.
      - right. apply mant_pred_digits; [done..|]. fold nc nm. lia. }
    assert (Hround : forall s, 0 <= s ->
              mant c * 2 ^ 53 * m = c * 2 ^ 53 * (mant m * 2 ^ s) ->
              2 ^ 52 < rne_div (mant c * 2 ^ 53) (mant m * 2 ^ s)).
    { intros s Hs E.
      assert (0 < 2 ^ s) by (apply Z.pow_pos_nonneg; lia).
      enough (2 ^ 52 + 1 <= rne_div (mant c * 2 ^ 53) (mant m * 2 ^ s)) by lia.
      apply rne_div_above; [nia|].
      assert (0 < mant m * 2 ^ s) by nia.
      apply (Z.mul_lt_mono_pos_r m); [lia|].
      replace (2 * (mant c * 2 ^ 53) * m) with (2 * (mant c * 2 ^ 53 * m)) by lia.
      rewrite E. nia. }
    destruct (Z.eq_dec c m) as [Ecm|Hne].
    { assert (Emant : mant c = mant m) by (by rewrite Ecm).
      assert (Edig : nc = nm) by (unfold nc, nm; by rewrite Ecm).
      rewrite Emant, Z.ltb_irrefl.
      replace (mant m * 2 ^ 53) with (2 ^ 52 * (mant m * 2 ^ 1)) by lia.
      rewrite rne_div_exact by lia.
      by replace (nc - nm - 53 + 1) with (-52) by lia. }
    destruct Ec as [Ec|Ec].
    + assert (nc = nm).
      { destruct (Z.eq_dec nc nm); [done|].
        assert (mant c = 2 * c * a) by (apply mant_pred_digits; [done..|]; fold nc nm; lia).
        nia. }
      destruct (Z.ltb_spec (mant c) (mant m)); [|nia].
      replace (nc - nm - 53 + 0) with (-53) by lia.
      apply rint_pack_large. split; [|lia].
      apply Hround; [lia|]. rewrite Ec, Em. change (2 ^ 0) with 1. lia.
    + destruct (Z.ltb_spec (mant c) (mant m)); [nia|].
      assert (nc = nm - 1).
      { destruct (Z.eq_dec nc nm) as [E|E]; [|lia].
        assert (mant c = c * a) by (by apply mant_same_digits). nia. }
      replace (nc - nm - 53 + 1) with (-53) by lia.
      apply rint_pack_large. split; [|lia].
      apply Hround; [lia|]. rewrite Ec, Em. change (2 ^ 1) with 2. lia.
  - (* no strict majority *)
    specialize (Hfar Hmin).
    destruct (Z.eq_dec nc (nm - 1)) as [E|E].
    + assert (Ec : mant c = 2 * c * a) by (apply mant_pred_digits; [done..|]; fold nc nm; lia).
      destruct (Z.ltb_spec (mant c) (mant m)).
      * apply rint_pack_small; [done|lia].
      * assert (2 * c = m) by nia.
        replace (mant c * 2 ^ 53) with (2 ^ 52 * (mant m * 2 ^ 1)) by nia.
        rewrite rne_div_exact by lia.
        by replace (nc - nm - 53 + 1) with (-53) by lia.
    + apply rint_pack_small; [done|]. destruct (_ <? _); lia.
Qed.

End Float64Facts.

(* ===================================================================== *)
(** * Part III: the synthesizers                                          *)
(* ===================================================================== *)

Section Synthesizers.
Local Open Scope py_scope.

Lemma world_eta w : {| heap := heap w; rng := rng w |} = w.
Proof. by destruct w. Qed.

Lemma flipped_length fr xs g : length (flipped fr xs g).1 = length xs.
Proof.
  revert g. induction xs as [|b xs IH]; intros g; cbn [flipped]; [done|].
  destruct (random g) as [r g']. specialize (IH g').
  destruct (flipped fr xs g') as [ys g'']. simpl in *. by rewrite IH.
Qed.

Lemma flipped_aligned fr xs g :
  Forall2 (fun y x => y = x \/ y = negb x) (flipped fr xs g).1 xs.
Proof.
  revert g. induction xs as [|b xs IH]; intros g; cbn [flipped]; [constructor|].
  destruct (random g) as [r g']. specialize (IH g').
  destruct (flipped fr xs g') as [ys g'']. simpl in *.
  constructor; [|done]. destruct (flt r fr); auto.
Qed.

Lemma flipped_many_length fr xs n g : length (flipped_many fr xs n g).1 = n.
Proof.
  revert g. induction n as [|n IH]; intros g; cbn [flipped_many]; [done|].
  destruct (flipped fr xs g) as [ys g']. specialize (IH g').
  destruct (flipped_many fr xs n g') as [yss g'']. simpl in *. by rewrite IH.
Qed.

Lemma flipped_many_Forall (P : list bool -> Prop) fr xs n g :
  (forall g', P (flipped fr xs g').1) ->
  Forall P (flipped_many fr xs n g).1.
Proof.
  intros HP. revert g. induction n as [|n IH]; intros g; cbn [flipped_many]; [constructor|].
  pose proof (HP g) as Hg. destruct (flipped fr xs g) as [ys g']. specialize (IH g').
  destruct (flipped_many fr xs n g') as [yss g'']. simpl in *. by constructor.
Qed.

Lemma bind_run {A B} (m : M A) (k : A -> M B) w a w' :
  m w = Ok (a, w') -> bind m k w = k a w'.
Proof. intros H. unfold bind. by rewrite H. Qed.

Lemma list_read_run l xs w : heap w !! l = Some xs -> list_read l w = Ok (xs, w).
Proof. intros H. unfold list_read. by rewrite H. Qed.

Lemma list_len_run l xs w : heap w !! l = Some xs -> list_len l w = Ok (length xs, w).
Proof. intros H. unfold list_len. by rewrite (bind_run _ _ _ _ _ (list_read_run _ _ _ H)). Qed.

Lemma list_getitem_run l xs i b w :
  heap w !! l = Some xs -> xs !! i = Some b -> list_getitem l i w = Ok (b, w).
Proof.
  intros H Hi. unfold list_getitem.
  rewrite (bind_run _ _ _ _ _ (list_read_run _ _ _ H)). by rewrite Hi.
Qed.

Lemma list_setitem_run l xs i b w :
  heap w !! l = Some xs -> (i < length xs)%nat ->
  list_setitem l i b w
  = Ok (tt, {| heap := <[l := <[i := b]> xs]> (heap w); rng := rng w |}).
Proof.
  intros H Hi. unfold list_setitem. rewrite H. by destruct (decide _).
Qed.

Lemma list_copy_run l xs w :
  heap w !! l = Some xs ->
  list_copy l w = Ok (fresh (dom (heap w)),
                      {| heap := <[fresh (dom (heap w)) := xs]> (heap w); rng := rng w |}).
Proof.
  intros H. unfold list_copy.
  by rewrite (bind_run _ _ _ _ _ (list_read_run _ _ _ H)).
Qed.

Lemma rng_random_run w :
  rng_random w = Ok ((random (rng w)).1, {| heap := heap w; rng := (random (rng w)).2 |}).
Proof. unfold rng_random. by destruct (random (rng w)). Qed.

(** The loop of [flip_loop], started at index [i] with the bits before [i]
    already decided. *)
Lemma flip_loop_steps fr src dst xs k :
  forall i done w S,
    (i + k = length xs)%nat -> length done = i ->
    heap w !! dst = Some (done ++ drop i xs) ->
    heap w !! src = Some S -> drop i S = drop i xs ->
    for_each (seq i k) (fun count =>
      bit <- list_getitem src count ;;
      r <- rng_random ;;
      if flt r fr then list_setitem dst count (negb bit) else ret tt) w
    = Ok (tt, {| heap := <[dst := done ++ (flipped fr (drop i xs) (rng w)).1]> (heap w);
                 rng := (flipped fr (drop i xs) (rng w)).2 |}).
Proof.
  induction k as [|k IH]; intros i done w S Hik Hdone Hdst Hsrc HS.
  - rewrite drop_ge in * by lia. simpl. unfold ret.
    rewrite insert_id by done. by rewrite world_eta.
  - assert (Hi : (i < length xs)%nat) by lia.
    destruct (lookup_lt_is_Some_2 xs i Hi) as [b Hb].
    rewrite (drop_S xs b i Hb) in *.
    assert (HSi : S !! i = Some b).
    { rewrite <- (Nat.add_0_r i), <- lookup_drop, HS. done. }
    cbn [seq for_each flipped].
    destruct (random (rng w)) as [r g'] eqn:Hr.
    set (b' := if flt r fr then negb b else b).
    set (w1 := {| heap := <[dst := (done ++ [b']) ++ drop (Datatypes.S i) xs]> (heap w);
                  rng := g' |}).
    assert (Hbody : (bit <- list_getitem src i ;;
                     r <- rng_random ;;
                     if flt r fr then list_setitem dst i (negb bit) else ret tt) w
                    = Ok (tt, w1)).
    { rewrite (bind_run _ _ _ _ _ (list_getitem_run _ _ _ _ _ Hsrc HSi)).
      rewrite (bind_run _ _ _ _ _ (rng_random_run w)). rewrite Hr. simpl.
      unfold w1, b'. destruct (flt r fr).
      - rewrite (list_setitem_run dst (done ++ b :: drop (Datatypes.S i) xs)).
        + simpl. do 3 f_equal. rewrite <- Hdone, <- (Nat.add_0_r (length done)).
          rewrite insert_app_r. simpl. by rewrite <- app_assoc.
        + done.
        + rewrite length_app. simpl. lia.
      - unfold ret. do 3 f_equal. rewrite insert_id; [done|].
        rewrite Hdst. by rewrite <- app_assoc. }
    rewrite (bind_run _ _ _ _ _ Hbody).
    rewrite (IH (Datatypes.S i) (done ++ [b']) w1
               (if decide (src = dst) then (done ++ [b']) ++ drop (Datatypes.S i) xs else S)).
    + simpl. destruct (flipped fr (drop (Datatypes.S i) xs) g') as [ys g'']. simpl.
      rewrite insert_insert_eq. by rewrite <- app_assoc.
    + lia.
    + rewrite length_app. simpl. lia.
    + simpl. by rewrite lookup_insert_eq.
    + simpl. destruct (decide (src = dst)) as [->|Hne].
      * by rewrite lookup_insert_eq.
      * by rewrite lookup_insert_ne.
    + destruct (decide (src = dst)).
      * rewrite drop_app_length'; [done|]. rewrite length_app. simpl. lia.
      * replace (drop (Datatypes.S i) S) with (drop 1 (drop i S))
          by (rewrite drop_drop; f_equal; lia).
        by rewrite HS.
Qed.

Lemma flip_loop_spec fr src dst xs w :
  heap w !! dst = Some xs ->
  heap w !! src = Some xs ->
  flip_loop src dst fr w
  = Ok (tt, {| heap := <[dst := (flipped fr xs (rng w)).1]> (heap w);
               rng := (flipped fr xs (rng w)).2 |}).
Proof.
  intros Hdst Hsrc. unfold flip_loop.
  rewrite (bind_run _ _ _ _ _ (list_len_run _ _ _ Hsrc)).
  by rewrite (flip_loop_steps fr src dst xs (length xs) 0 [] w xs).
Qed.

Lemma fresh_loc_None (h : gmap loc (list bool)) : h !! fresh (dom h) = None.
Proof. apply not_elem_of_dom, is_fresh. Qed.

(** [[ground_truth.copy() for x in range(num_classifiers)]] *)
Lemma copies_spec gt xs (js : list nat) :
  forall w, heap w !! gt = Some xs ->
  exists locs h',
    list_comp js (fun _ => list_copy gt) w = Ok (locs, {| heap := h'; rng := rng w |}) /\
    length locs = length js /\
    NoDup locs /\
    (forall l, l ∈ locs -> heap w !! l = None /\ h' !! l = Some xs) /\
    (forall l, l ∉ locs -> h' !! l = heap w !! l).
Proof.
  induction js as [|j js IH]; intros w Hgt.
  - exists [], (heap w). simpl. unfold ret. rewrite world_eta.
    split; [done|]. split; [done|]. split; [apply NoDup_nil_2|].
    split; [|done]. intros l Hl. by apply elem_of_nil in Hl.
  - cbn [list_comp]. rewrite (bind_run _ _ _ _ _ (list_copy_run _ _ _ Hgt)).
    set (l0 := fresh (dom (heap w))).
    assert (Hl0 : heap w !! l0 = None) by apply fresh_loc_None.
    assert (Hne : l0 <> gt) by (intros ->; congruence).
    set (w1 := {| heap := <[l0 := xs]> (heap w); rng := rng w |}).
    destruct (IH w1) as (locs & h' & Hrun & Hlen & Hnd & Hnew & Hold).
    { simpl. by rewrite lookup_insert_ne. }
    assert (Hnotin : l0 ∉ locs).
    { intros Hin. destruct (Hnew _ Hin) as [Hnone _]. simpl in Hnone.
      by rewrite lookup_insert_eq in Hnone. }
    exists (l0 :: locs), h'. rewrite (bind_run _ _ _ _ _ Hrun). unfold ret.
    split; [done|]. split; [simpl; by rewrite Hlen|]. split; [by constructor|].
    split.
    + intros l [->|Hin]%elem_of_cons.
      * split; [done|]. rewrite (Hold _ Hnotin). simpl. by rewrite lookup_insert_eq.
      * destruct (Hnew _ Hin) as [Hnone Hsome]. split; [|done].
        simpl in Hnone. rewrite lookup_insert_ne in Hnone; [done|].
        intros ->. by rewrite lookup_insert_eq in Hnone.
    + intros l [Hl Hin]%not_elem_of_cons. rewrite (Hold _ Hin). simpl.
      by rewrite lookup_insert_ne.
Qed.

(** The flipping loop over every copy. *)
Lemma flips_spec fr xs (locs : list loc) :
  forall w, NoDup locs -> (forall l, l ∈ locs -> heap w !! l = Some xs) ->
  exists w',
    for_each locs (fun c => flip_loop c c fr) w = Ok (tt, w') /\
    Forall2 (fun l ys => heap w' !! l = Some ys) locs
      (flipped_many fr xs (length locs) (rng w)).1 /\
    (forall l, l ∉ locs -> heap w' !! l = heap w !! l) /\
    rng w' = (flipped_many fr xs (length locs) (rng w)).2.
Proof.
  induction locs as [|c locs IH]; intros w Hnd Hall.
  - exists w. simpl. split; [done|]. split; [constructor|done].
  - apply NoDup_cons in Hnd as [Hc Hnd].
    assert (Hcx : heap w !! c = Some xs) by (apply Hall; left).
    cbn [for_each length flipped_many].
    rewrite (bind_run _ _ _ _ _ (flip_loop_spec fr c c xs w Hcx Hcx)).
    destruct (flipped fr xs (rng w)) as [ys g1]. simpl.
    set (w1 := {| heap := <[c := ys]> (heap w); rng := g1 |}).
    destruct (IH w1 Hnd) as (w' & Hrun & Hcont & Hold & Hrng).
    { intros l Hl. simpl. rewrite lookup_insert_ne; [apply Hall; by right|].
      intros ->. done. }
    exists w'. split; [done|]. simpl in Hcont, Hrng.
    destruct (flipped_many fr xs (length locs) g1) as [yss g2]. simpl in *.
    split; [|split; [|done]].
    + constructor; [|done]. rewrite (Hold _ Hc). simpl. by rewrite lookup_insert_eq.
    + intros l [Hl Hin]%not_elem_of_cons. rewrite (Hold _ Hin). simpl.
      by rewrite lookup_insert_ne.
Qed.

Lemma range_length n : length (range n) = Z.to_nat n.
Proof. unfold range. by rewrite length_seq. Qed.

Theorem create_classifiers_spec gt xs n fr w :
  heap w !! gt = Some xs ->
  exists locs w',
    create_classifiers gt n fr w = Ok (locs, w') /\
    synthesized w xs fr (Z.to_nat n) locs w'.
Proof.
  intros Hgt. unfold create_classifiers.
  destruct (copies_spec gt xs (range n) w Hgt) as (locs & h' & Hrun & Hlen & Hnd & Hnew & Hold).
  rewrite range_length in Hlen.
  rewrite (bind_run _ _ _ _ _ Hrun).
  set (w1 := {| heap := h'; rng := rng w |}).
  destruct (flips_spec fr xs locs w1 Hnd) as (w' & Hrun' & Hcont & Hold' & Hrng).
  { intros l Hl. by destruct (Hnew _ Hl). }
  rewrite (bind_run _ _ _ _ _ Hrun'). exists locs, w'. split; [done|].
  rewrite Hlen in *. simpl in *. repeat split; try done.
  - intros l Hl. by destruct (Hnew _ Hl).
  - intros l Hl. rewrite (Hold' _ Hl). by apply Hold.
Qed.

Lemma corr_spec base xs fr (js : list nat) :
  forall w, heap w !! base = Some xs ->
  exists locs w',
    list_comp js (fun _ =>
      new_sys <- list_copy base ;; flip_loop base new_sys fr ;;; ret new_sys) w
    = Ok (locs, w') /\
    synthesized w xs fr (length js) locs w'.
Proof.
  induction js as [|j js IH]; intros w Hbase.
  - exists [], w. simpl. unfold synthesized. simpl.
    split; [done|]. split; [done|]. split; [apply NoDup_nil_2|].
    split; [intros l Hl; by apply elem_of_nil in Hl|].
    split; [constructor|done].
  - cbn [list_comp].
    set (l0 := fresh (dom (heap w))).
    assert (Hl0 : heap w !! l0 = None) by apply fresh_loc_None.
    assert (Hne : l0 <> base) by (intros ->; congruence).
    set (w1 := {| heap := <[l0 := xs]> (heap w); rng := rng w |}).
    assert (Hflip := flip_loop_spec fr base l0 xs w1).
    simpl in Hflip. rewrite lookup_insert_eq, lookup_insert_ne in Hflip by done.
    specialize (Hflip eq_refl Hbase). rewrite insert_insert_eq in Hflip.
    assert (Hbody : (new_sys <- list_copy base ;; flip_loop base new_sys fr ;;; ret new_sys) w
                    = Ok (l0, {| heap := <[l0 := (flipped fr xs (rng w)).1]> (heap w);
                                 rng := (flipped fr xs (rng w)).2 |})).
    { rewrite (bind_run _ _ _ _ _ (list_copy_run _ _ _ Hbase)).
      fold l0. fold w1. by rewrite (bind_run _ _ _ _ _ Hflip). }
    rewrite (bind_run _ _ _ _ _ Hbody). clear Hbody Hflip.
    unfold synthesized. cbn [length flipped_many].
    destruct (flipped fr xs (rng w)) as [ys g1]. simpl.
    set (w2 := {| heap := <[l0 := ys]> (heap w); rng := g1 |}).
    destruct (IH w2) as (locs & w' & Hrun & Hlen & Hnd & Hnew & Hcont & Hold & Hrng).
    { simpl. by rewrite lookup_insert_ne. }
    assert (Hnotin : l0 ∉ locs).
    { intros Hin. specialize (Hnew _ Hin). simpl in Hnew.
      by rewrite lookup_insert_eq in Hnew. }
    exists (l0 :: locs), w'. rewrite (bind_run _ _ _ _ _ Hrun). unfold ret.
    simpl in Hcont, Hrng.
    destruct (flipped_many fr xs (length js) g1) as [yss g2]. simpl in *.
    repeat split.
    + by rewrite Hlen.
    + by constructor.
    + intros l [->|Hin]%elem_of_cons; [done|].
      specialize (Hnew _ Hin). rewrite lookup_insert_ne in Hnew; [done|].
      intros ->. done.
    + constructor; [|done]. rewrite (Hold _ Hnotin). by rewrite lookup_insert_eq.
    + intros l [Hl Hin]%not_elem_of_cons. rewrite (Hold _ Hin).
      by rewrite lookup_insert_ne.
    + done.
Qed.

Theorem make_corr_classifiers_spec base xs n fr w :
  heap w !! base = Some xs ->
  exists locs w',
    make_corr_classifiers base fr n w = Ok (locs, w') /\
    synthesized w xs fr (Z.to_nat n) locs w'.
Proof.
  intros Hbase. unfold make_corr_classifiers.
  destruct (corr_spec base xs fr (range n) w Hbase) as (locs & w' & Hrun & Hs).
  rewrite range_length in Hs. by exists locs, w'.
Qed.

Lemma random_lt_one g : flt (random g).1 f_one = true.
Proof.
  destruct (random_unit g) as (k & Hk & ->). by apply unit_float_lt_one.
Qed.

Lemma random_not_neg g : flt (random g).1 f_zero = false.
Proof.
  destruct (random_unit g) as (k & Hk & ->). by apply unit_float_not_neg.
Qed.

Lemma flipped_one xs g : (flipped f_one xs g).1 = map negb xs.
Proof.
  revert g. induction xs as [|b xs IH]; intros g; cbn [flipped]; [done|].
  pose proof (random_lt_one g) as Hr.
  destruct (random g) as [r g']. specialize (IH g').
  destruct (flipped f_one xs g') as [ys g'']. simpl in *. by rewrite Hr, IH.
Qed.

Lemma flipped_zero xs g : (flipped f_zero xs g).1 = xs.
Proof.
  revert g. induction xs as [|b xs IH]; intros g; cbn [flipped]; [done|].
  pose proof (random_not_neg g) as Hr.
  destruct (random g) as [r g']. specialize (IH g').
  destruct (flipped f_zero xs g') as [ys g'']. simpl in *. by rewrite Hr, IH.
Qed.

Lemma synthesized_lookup w xs fr n locs w' l :
  synthesized w xs fr n locs w' -> l ∈ locs ->
  exists g, heap w' !! l = Some (flipped fr xs g).1.
Proof.
  intros (_ & _ & _ & Hcont & _) Hl.
  apply list_elem_of_lookup in Hl as [j Hj].
  destruct (Forall2_lookup_l _ _ _ _ _ Hcont Hj) as (ys & Hys & Hheap).
  assert (Hall : Forall (fun ys => exists g, ys = (flipped fr xs g).1)
                   (flipped_many fr xs n (rng w)).1).
  { apply flipped_many_Forall. intros g. by exists g. }
  rewrite Forall_lookup in Hall. destruct (Hall _ _ Hys) as [g ->]. by exists g.
Qed.

Lemma synthesized_frame w xs fr n locs w' l ys :
  synthesized w xs fr n locs w' -> heap w !! l = Some ys -> heap w' !! l = Some ys.
Proof.
  intros (_ & _ & Hnew & _ & Hold & _) Hl. rewrite Hold; [done|].
  intros Hin. specialize (Hnew _ Hin). congruence.
Qed.

(** ** [fuzzy_ground] *)

Lemma fuzzy_ground_spec input :
  forall w, exists out g',
    fuzzy_ground input w = Ok (out, {| heap := heap w; rng := g' |}) /\
    Forall2 (fun (b : bool) v => exists k, (0 <= k < 2 ^ 53)%Z /\
               v = if b then fdiv (fadd (unit_float k) f_one) f_two
                   else fdiv (unit_float k) f_two) input out.
Proof.
  induction input as [|b input IH]; intros w.
  - exists [], (rng w). simpl. unfold ret. rewrite world_eta. split; [done|constructor].
  - cbn [fuzzy_ground]. rewrite (bind_run _ _ _ _ _ (rng_random_run w)).
    destruct (random_unit (rng w)) as (k & Hk & Hr). rewrite Hr.
    destruct (IH {| heap := heap w; rng := (random (rng w)).2 |}) as (out & g' & Hrun & Hall).
    rewrite (bind_run _ _ _ _ _ Hrun). unfold ret. simpl.
    eexists _, g'. split; [done|]. constructor; [|done]. by exists k.
Qed.

(** ** [create_ground_truth] and [create_fuzzy_classifiers] *)

Lemma coin_flips_spec (js : list nat) :
  forall w, exists bits g',
    list_comp js (fun _ => r <- rng_random ;; ret (flt f_half r)) w
    = Ok (bits, {| heap := heap w; rng := g' |}) /\
    length bits = length js.
Proof.
  induction js as [|j js IH]; intros w.
  - exists [], (rng w). simpl. unfold ret. by rewrite world_eta.
  - cbn [list_comp].
    assert (Hbody : (r <- rng_random ;; ret (flt f_half r)) w
                    = Ok (flt f_half (random (rng w)).1,
                          {| heap := heap w; rng := (random (rng w)).2 |})).
    { by rewrite (bind_run _ _ _ _ _ (rng_random_run w)). }
    rewrite (bind_run _ _ _ _ _ Hbody).
    destruct (IH {| heap := heap w; rng := (random (rng w)).2 |}) as (bits & g' & Hrun & Hlen).
    rewrite (bind_run _ _ _ _ _ Hrun). unfold ret. simpl.
    eexists _, g'. split; [done|]. simpl. by rewrite Hlen.
Qed.

(** The ground truth is a new list of [num_bits] booleans; nothing else
    changes. *)
Lemma create_ground_truth_spec num_bits w :
  exists l bits w',
    create_ground_truth num_bits w = Ok (l, w') /\
    heap w !! l = None /\
    heap w' = <[l := bits]> (heap w) /\
    length bits = Z.to_nat num_bits.
Proof.
  unfold create_ground_truth.
  destruct (coin_flips_spec (range num_bits) w) as (bits & g' & Hrun & Hlen).
  rewrite (bind_run _ _ _ _ _ Hrun). unfold list_new. simpl.
  eexists _, bits, _. split; [done|]. split; [apply fresh_loc_None|].
  split; [done|]. by rewrite Hlen, range_length.
Qed.

Lemma fuzzify_all_spec N (locs : list loc) :
  forall w,
    Forall (fun l => exists ys, heap w !! l = Some ys /\ length ys = N) locs ->
    exists outs g',
      list_comp locs (fun classifier =>
        bits <- list_read classifier ;; fuzzy_ground bits) w
      = Ok (outs, {| heap := heap w; rng := g' |}) /\
      length outs = length locs /\
      Forall (fun out : list float => length out = N) outs.
Proof.
  induction locs as [|l locs IH]; intros w Hall.
  - exists [], (rng w). simpl. unfold ret. rewrite world_eta.
    split; [done|]. split; [done|constructor].
  - apply Forall_cons in Hall as [(ys & Hl & Hys) Hall]. cbn [list_comp].
    destruct (fuzzy_ground_spec ys w) as (out & g1 & Hrun1 & Hout).
    assert (Hbody : (bits <- list_read l ;; fuzzy_ground bits) w
                    = Ok (out, {| heap := heap w; rng := g1 |})).
    { by rewrite (bind_run _ _ _ _ _ (list_read_run _ _ _ Hl)). }
    rewrite (bind_run _ _ _ _ _ Hbody).
    destruct (IH {| heap := heap w; rng := g1 |} Hall) as (outs & g' & Hrun & Hlen & Houts).
    rewrite (bind_run _ _ _ _ _ Hrun). unfold ret. simpl.
    eexists _, g'. split; [done|]. split; [simpl; by rewrite Hlen|].
    constructor; [|done]. rewrite <- Hys. symmetry. by eapply Forall2_length.
Qed.

(** The fuzzy ensemble has one sequence per classifier, each as long as the
    ground truth. *)
Lemma create_fuzzy_classifiers_spec gt xs n fr w :
  heap w !! gt = Some xs ->
  exists outs w',
    create_fuzzy_classifiers gt n fr w = Ok (outs, w') /\
    length outs = Z.to_nat n /\
    Forall (fun out : list float => length out = length xs) outs.
Proof.
  intros Hgt. unfold create_fuzzy_classifiers.
  destruct (create_classifiers_spec gt xs n fr w Hgt) as (locs & w1 & Hrun & Hs).
  rewrite (bind_run _ _ _ _ _ Hrun).
  destruct (fuzzify_all_spec (length xs) locs w1) as (outs & g' & Hrun' & Hlen & Houts).
  { apply Forall_forall. intros l Hl.
    destruct (synthesized_lookup _ _ _ _ _ _ _ Hs Hl) as [g Hg].
    eexists. split; [exact Hg|]. apply flipped_length. }
  eexists _, _. split; [exact Hrun'|]. split; [|done].
  destruct Hs as (Hn & _). by rewrite Hlen.
Qed.

End Synthesizers.

(* ===================================================================== *)
(** * Part IV: the aggregators                                            *)
(* ===================================================================== *)

Section Aggregators.

Lemma votes_cons (r : list bool) rs i (b : bool) :
  r !! i = Some b -> votes (r :: rs) i = ((if b then 1 else 0) + votes rs i)%nat.
Proof.
  intros Hb. unfold votes. rewrite filter_cons, Hb.
  destruct b; destruct (decide _) as [H|H]; simpl; congruence.
Qed.

Lemma votes_le cs i : (votes cs i <= length cs)%nat.
Proof. unfold votes. apply length_filter. Qed.

Lemma votes_perm (cs cs' : list (list bool)) i :
  Permutation cs cs' -> votes cs i = votes cs' i.
Proof. intros H. unfold votes. by rewrite H. Qed.

Lemma as_float64_bool (b : bool) : as_float64 b = of_Z (Z.b2z b).
Proof. by destruct b. Qed.

Lemma fadd_of_Z_bool c (b : bool) :
  (0 <= c)%Z -> (c + 1 < 2 ^ 53)%Z ->
  fadd (of_Z c) (as_float64 b) = of_Z (c + Z.b2z b).
Proof.
  intros H0 H1. destruct b; simpl.
  - by apply fadd_of_Z_one.
  - rewrite Z.add_0_r. apply fadd_zero_r. by apply of_Z_not_negzero.
Qed.

(** Adding the rows one after the other counts the true votes of every
    column, exactly. *)
Lemma column_sums (rows : list (list bool)) :
  forall (acc : list float) i c,
    Forall (fun r => length r = length acc) rows ->
    acc !! i = Some (of_Z c) ->
    (0 <= c)%Z -> (c + Z.of_nat (length rows) < 2 ^ 53)%Z ->
    fold_left (fun acc r => zip_with fadd acc (map as_float64 r)) rows acc !! i
    = Some (of_Z (c + Z.of_nat (votes rows i))).
Proof.
  induction rows as [|r rows IH]; intros acc i c Hlen Hi H0 Hb.
  - simpl. rewrite Hi. do 2 f_equal. unfold votes. simpl. lia.
  - apply Forall_cons in Hlen as [Hr Hlen]. cbn [fold_left].
    assert (Hlt : (i < length r)%nat).
    { rewrite Hr. apply lookup_lt_is_Some. by eexists. }
    destruct (lookup_lt_is_Some_2 r i Hlt) as [b Hbi].
    rewrite (IH _ i (c + Z.b2z b)%Z).
    + do 2 f_equal. rewrite (votes_cons r rows i b Hbi). destruct b; simpl; lia.
    + eapply Forall_impl; [exact Hlen|]. intros r' Hr'. simpl in Hr'.
      rewrite length_zip_with, length_map. lia.
    + rewrite lookup_zip_with, Hi. simpl. rewrite list_lookup_fmap, Hbi. simpl.
      f_equal. apply fadd_of_Z_bool; [done|]. simpl in Hb. lia.
    + destruct b; simpl; lia.
    + simpl in Hb. destruct b; simpl; lia.
Qed.

Lemma column_sums_length {A} `{Float64Like A} (rows : list (list A)) :
  forall (acc : list float),
    Forall (fun r => length r = length acc) rows ->
    length (fold_left (fun acc r => zip_with fadd acc (map as_float64 r)) rows acc)
    = length acc.
Proof.
  induction rows as [|r rows IH]; intros acc Hlen; [done|].
  apply Forall_cons in Hlen as [Hr Hlen]. cbn [fold_left].
  assert (E : length (zip_with fadd acc (map as_float64 r)) = length acc).
  { rewrite length_zip_with, length_map. lia. }
  rewrite IH; [done|]. eapply Forall_impl; [exact Hlen|]. intros r' Hr'. simpl in *. lia.
Qed.

Lemma same_length_check {A} (row : list A) (rows : list (list A)) N :
  length row = N -> Forall (fun r => length r = N) rows ->
  forallb (fun r => Nat.eqb (length r) (length row)) rows = true.
Proof.
  intros Hrow Hall. induction Hall as [|r rows Hr _ IH]; [done|].
  simpl. rewrite IH, Hr, Hrow, Nat.eqb_refl. done.
Qed.

(** [np.mean] followed by [np.round] on equally long rows: some array of
    the rows' length. *)
Lemma do_majority_shape {A} `{Float64Like A} (cs : list (list A)) N :
  cs <> [] -> Forall (fun r => length r = N) cs ->
  exists out, do_majority cs = Ok (Array1 out) /\ length out = N.
Proof.
  intros Hne Hall. destruct cs as [|row rows]; [done|].
  apply Forall_cons in Hall as [Hrow Hall].
  unfold do_majority, np_mean.
  rewrite (same_length_check row rows N) by done. cbn [result_bind np_round].
  eexists. split; [done|].
  rewrite !length_map, column_sums_length, length_map; [done|].
  eapply Forall_impl; [exact Hall|]. intros r Hr. simpl in *. rewrite length_map. lia.
Qed.

(** The hard vote, position by position: [1.0] exactly when the true votes
    are a strict majority. *)
Theorem do_majority_votes (cs : list (list bool)) N :
  cs <> [] -> Forall (fun r => length r = N) cs ->
  (Z.of_nat (length cs) < 2 ^ 53)%Z ->
  exists out,
    do_majority cs = Ok (Array1 out) /\ length out = N /\
    forall i, (i < N)%nat ->
      out !! i = Some (if (length cs <? 2 * votes cs i)%nat then f_one else f_zero).
Proof.
  intros Hne Hall Hm.
  destruct cs as [|row rows]; [done|].
  set (m := length (row :: rows)) in *.
  assert (0 < m)%nat by (unfold m; simpl; lia).
  apply Forall_cons in Hall as [Hrow Hall].
  assert (Hrows : Forall (fun r => length r = length (map as_float64 row)) rows).
  { eapply Forall_impl; [exact Hall|]. intros r Hr. simpl in *. rewrite length_map. lia. }
  unfold do_majority, np_mean. fold m.
  rewrite (same_length_check row rows N) by done. cbn [result_bind np_round].
  eexists. split; [reflexivity|]. split.
  { by rewrite !length_map, column_sums_length, length_map. }
  intros i Hi.
  destruct (lookup_lt_is_Some_2 row i ltac:(lia)) as [b Hb].
  rewrite !list_lookup_fmap.
  rewrite (column_sums rows _ i (Z.b2z b)).
  - cbn [fmap option_fmap option_map]. f_equal.
    pose proof (votes_le (row :: rows) i) as Hle. fold m in Hle.
    rewrite (votes_cons row rows i b Hb) in *.
    replace (Z.b2z b + Z.of_nat (votes rows i))%Z
      with (Z.of_nat ((if b then 1 else 0) + votes rows i)) by (destruct b; simpl; lia).
    set (v := ((if b then 1 else 0) + votes rows i)%nat) in *.
    rewrite rint_vote_fraction by lia.
    destruct (Z.ltb_spec (Z.of_nat m) (2 * Z.of_nat v));
      destruct (Nat.ltb_spec m (2 * v)); try done; lia.
  - done.
  - rewrite list_lookup_fmap, Hb. simpl. by rewrite as_float64_bool.
  - destruct b; simpl; lia.
  - unfold m in Hm. simpl length in Hm. destruct b; simpl; lia.
Qed.

End Aggregators.

(* ===================================================================== *)
(** * Part V: the properties of the specification                         *)
(* ===================================================================== *)

Local Open Scope py_scope.

(** ** Fuzzy classifiers *)

(** A false bit always rounds back to [False]. *)
Lemma fuzzy_round_trip_false k :
  (0 <= k < 2 ^ 53)%Z -> round_to_bool (fdiv (unit_float k) f_two) = false.
Proof.
  intros Hk. unfold round_to_bool.
  destruct (fuzzy_false_value k Hk) as [->|(m & e & -> & Hm & He)]; [done|].
  rewrite rint_small; [done|lia|].
  assert (2 ^ 54 <= 2 ^ (- e))%Z by (apply Z.pow_le_mono_r; lia). lia.
Qed.

(** A true bit rounds back to [True] unless the draw is one of the two
    smallest doubles, [0] and [2^-53]. *)
Lemma fuzzy_round_trip_true k :
  (0 <= k < 2 ^ 53)%Z ->
  round_to_bool (fdiv (fadd (unit_float k) f_one) f_two) = (2 <=? k)%Z.
Proof.
  intros Hk. unfold round_to_bool. rewrite fuzzy_true_value by done.
  destruct (Z.leb_spec 2 k) as [Hge|Hlt].
  - rewrite rint_pack_large; [done|].
    pose proof (rne_div_unit_bounds k Hk). split; [|lia].
    pose proof (rne_div_floor (k + 2 ^ 53) 2).
    assert (2 ^ 52 + 1 <= (k + 2 ^ 53) / 2)%Z by (apply Z.div_le_lower_bound; lia). lia.
  - assert (k = 0 \/ k = 1)%Z as [-> | ->] by lia; reflexivity.
Qed.

(** C1 (code defect).  [fuzzy_ground] promises values that round back to the
    original booleans.  When [rng.random()] returns [0.0], a true bit becomes
    [(0.0 + 1) / 2 = 0.5], and [np.round], which rounds ties to even, sends
    [0.5] to [0.0]: the round trip of [[True]] is [[False]]. *)
Theorem fuzzy_ground_half_rounds_down :
  let w := one_list_world [] 0 in
  fuzzy_ground [true] w = Ok ([f_half], {| heap := heap w; rng := advance (rng w) |}) /\
  map rint [f_half] = [f_zero] /\
  map round_to_bool [f_half] = [false].
Proof. repeat split. Qed.

(** C10, as the specification states it, fails: when [rng.random()] returns
    the largest double below [1], [r + 1] is rounded to [2.0] and the value
    emitted for a true bit is [1.0], which is not strictly below [1]. *)
Lemma fuzzy_ground_reaches_one :
  let w := one_list_world [] (2 ^ 64 - 1) in
  fuzzy_ground [true] w = Ok ([f_one], {| heap := heap w; rng := advance (rng w) |}) /\
  ~ Forall2 (fun (b : bool) v =>
               if b then fle f_half v = true /\ flt v f_one = true
               else fle f_zero v = true /\ flt v f_half = true) [true] [f_one].
Proof.
  split; [reflexivity|].
  intros H. apply Forall2_cons_1 in H as [[_ H] _]. discriminate H.
Qed.

(** C10 (amended).  For every boolean input and every generator, each value
    [fuzzy_ground] emits for a false bit lies in [[0, 0.5)] and each value it
    emits for a true bit lies in the closed interval [[0.5, 1]]. *)
Theorem fuzzy_ground_ranges input w :
  exists out w',
    fuzzy_ground input w = Ok (out, w') /\
    Forall2 (fun (b : bool) v =>
               if b then fle f_half v = true /\ fle v f_one = true
               else fle f_zero v = true /\ flt v f_half = true) input out.
Proof.
  destruct (fuzzy_ground_spec input w) as (out & g' & Hrun & Hall).
  eexists _, _. split; [exact Hrun|].
  eapply Forall2_impl; [exact Hall|]. intros b v (k & Hk & ->). destruct b.
  - rewrite fuzzy_true_value by done. pose proof (rne_div_unit_bounds k Hk).
    split; [by apply fle_half_pack|by apply fle_pack_one].
  - destruct (fuzzy_false_value k Hk) as [->|(m & e & -> & Hm & He)]; [done|].
    split; [done|]. apply flt_finite. lia.
Qed.

(** ** Aggregators *)

(** C2, as the specification states it, fails: on an empty ensemble
    [do_majority] raises nothing. *)
Lemma empty_ensemble_raises_nothing :
  ~ exists e, do_majority ([] : list (list bool)) = Raise e.
Proof. intros [e He]. discriminate He. Qed.

(** C2 (amended).  On an empty ensemble neither aggregator fails: the mean
    of an empty array is [0.0 / 0], and both return the scalar NaN. *)
Theorem empty_ensemble_is_nan :
  do_majority ([] : list (list bool)) = Ok (Scalar f_nan) /\
  fuzzy_ensemble ([] : list (list float)) = Ok (Scalar f_nan).
Proof. split; reflexivity. Qed.

Lemma map_as_float64_float (xs : list float) : map as_float64 xs = xs.
Proof. induction xs as [|x xs IH]; simpl; [done|]. by rewrite IH. Qed.

Lemma np_mean_as_float64 (cs : list (list bool)) :
  np_mean (map (map as_float64) cs) = np_mean cs.
Proof.
  destruct cs as [|row rows]; [done|]. unfold np_mean. cbn [map length].
  rewrite !length_map, map_as_float64_float.
  assert (Hchk : forallb (fun r => Nat.eqb (length r) (length row))
                   (map (map as_float64) rows)
                 = forallb (fun r => Nat.eqb (length r) (length row)) rows).
  { induction rows as [|r rows IH]; simpl; [done|]. by rewrite IH, length_map. }
  rewrite Hchk. destruct (forallb _ rows); [|done].
  assert (Hsum : forall acc : list float,
            fold_left (fun acc r => zip_with fadd acc (map as_float64 r))
              (map (map as_float64) rows) acc
            = fold_left (fun acc (r : list bool) => zip_with fadd acc (map as_float64 r))
                rows acc).
  { clear. induction rows as [|r rows IH]; intros acc; cbn [map fold_left]; [done|].
    by rewrite IH, map_as_float64_float. }
  by rewrite Hsum.
Qed.

(** C3.  The soft vote and the hard vote are the same function: on every
    ensemble, of booleans or of floats, [fuzzy_ensemble] returns what
    [do_majority] returns, and the hard vote of booleans is the soft vote of
    the same votes written [0.0] and [1.0]. *)
Theorem fuzzy_ensemble_same_as_do_majority :
  (forall cs : list (list float), fuzzy_ensemble cs = do_majority cs) /\
  (forall cs : list (list bool), fuzzy_ensemble cs = do_majority cs) /\
  (forall cs : list (list bool),
     fuzzy_ensemble (map (map as_float64) cs) = do_majority cs).
Proof.
  split; [done|]. split; [done|]. intros cs.
  unfold fuzzy_ensemble, do_majority. by rewrite np_mean_as_float64.
Qed.

Lemma vote_fraction_majority (cs : list (list bool)) i :
  cs <> [] ->
  ((1 # 2 < vote_fraction cs i)%Q <-> (length cs < 2 * votes cs i)%nat) /\
  ((vote_fraction cs i < 1 # 2)%Q <-> (2 * votes cs i < length cs)%nat) /\
  ((vote_fraction cs i == 1 # 2)%Q <-> (2 * votes cs i = length cs)%nat).
Proof.
  intros Hne.
  assert (Hpos : Z.pos (Pos.of_nat (length cs)) = Z.of_nat (length cs)).
  { destruct cs as [|r rs]; [done|]. simpl length.
    rewrite <- Pos.of_nat_succ. by rewrite Zpos_P_of_succ_nat, Nat2Z.inj_succ. }
  unfold vote_fraction, Qlt, Qeq. simpl. rewrite Hpos. lia.
Qed.

(** C4.  For a non-empty ensemble of equally long boolean sequences, with
    fewer classifiers than [2^53], [do_majority] outputs [1.0] at every
    position where the fraction of true votes is above one half, and [0.0]
    where it is below. *)
Theorem do_majority_follows_majority (cs : list (list bool)) N i :
  cs <> [] -> Forall (fun r => length r = N) cs ->
  (Z.of_nat (length cs) < 2 ^ 53)%Z -> (i < N)%nat ->
  exists out,
    do_majority cs = Ok (Array1 out) /\
    ((1 # 2 < vote_fraction cs i)%Q -> out !! i = Some f_one) /\
    ((vote_fraction cs i < 1 # 2)%Q -> out !! i = Some f_zero).
Proof.
  intros Hne Hall Hm Hi.
  destruct (do_majority_votes cs N Hne Hall Hm) as (out & Hrun & _ & Hout).
  destruct (vote_fraction_majority cs i Hne) as (Hgt & Hlt & _).
  exists out. split; [done|]. rewrite (Hout i Hi). split.
  - intros H%Hgt. by destruct (Nat.ltb_spec (length cs) (2 * votes cs i)); [|lia].
  - intros H%Hlt. by destruct (Nat.ltb_spec (length cs) (2 * votes cs i)); [lia|].
Qed.

(** Two ensembles of three classifiers: two true votes out of three, then
    one out of three, at position 0. *)
Lemma do_majority_follows_majority_witness :
  (exists out,
     do_majority [[true; false]; [true; true]; [false; false]] = Ok (Array1 out) /\
     out !! 0%nat = Some f_one) /\
  (exists out,
     do_majority [[true; false]; [false; true]; [false; false]] = Ok (Array1 out) /\
     out !! 0%nat = Some f_zero).
Proof.
  split.
  - destruct (do_majority_follows_majority
                [[true; false]; [true; true]; [false; false]] 2 0)
      as (out & Hrun & Hgt & _).
    + discriminate.
    + repeat constructor.
    + reflexivity.
    + repeat constructor.
    + exists out. split; [exact Hrun|]. apply Hgt. reflexivity.
  - destruct (do_majority_follows_majority
                [[true; false]; [false; true]; [false; false]] 2 0)
      as (out & Hrun & _ & Hlt).
    + discriminate.
    + repeat constructor.
    + reflexivity.
    + repeat constructor.
    + exists out. split; [exact Hrun|]. apply Hlt. reflexivity.
Defined.

(** C5.  In an ensemble of even size (below [2^53]), at a position where
    exactly half of the classifiers vote true, [do_majority] outputs [0.0]:
    the mean is exactly [0.5] and [np.round] rounds it to the even
    neighbour.  The output does not depend on the order of the classifiers:
    every permutation of the ensemble gives [0.0] there as well. *)
Theorem do_majority_tie_is_deterministic (cs cs' : list (list bool)) N i :
  cs <> [] -> Forall (fun r => length r = N) cs ->
  (Z.of_nat (length cs) < 2 ^ 53)%Z -> (i < N)%nat ->
  Nat.Even (length cs) ->
  (vote_fraction cs i == 1 # 2)%Q ->
  Permutation cs cs' ->
  exists out out',
    do_majority cs = Ok (Array1 out) /\ out !! i = Some f_zero /\
    do_majority cs' = Ok (Array1 out') /\ out' !! i = Some f_zero.
Proof.
  intros Hne Hall Hm Hi _ Htie Hperm.
  destruct (vote_fraction_majority cs i Hne) as (_ & _ & Heq).
  apply Heq in Htie.
  assert (Hne' : cs' <> []).
  { intros ->. apply Permutation_nil_r in Hperm. done. }
  assert (Hall' : Forall (fun r => length r = N) cs') by (by rewrite <- Hperm).
  assert (Hlen : length cs' = length cs) by (by rewrite Hperm).
  assert (Hvotes : votes cs' i = votes cs i) by (symmetry; by apply votes_perm).
  destruct (do_majority_votes cs N Hne Hall Hm) as (out & Hrun & _ & Hout).
  destruct (do_majority_votes cs' N Hne' Hall') as (out' & Hrun' & _ & Hout'); [lia|].
  exists out, out'. rewrite (Hout i Hi), (Hout' i Hi), Hlen, Hvotes.
  destruct (Nat.ltb_spec (length cs) (2 * votes cs i)); [lia|done].
Qed.

(** Two classifiers that disagree at position 0, in both orders. *)
Lemma do_majority_tie_is_deterministic_witness :
  exists out out',
    do_majority [[true; false]; [false; false]] = Ok (Array1 out) /\
    out !! 0%nat = Some f_zero /\
    do_majority [[false; false]; [true; false]] = Ok (Array1 out') /\
    out' !! 0%nat = Some f_zero.
Proof.
  apply (do_majority_tie_is_deterministic
           [[true; false]; [false; false]] [[false; false]; [true; false]] 2 0).
  - discriminate.
  - repeat constructor.
  - reflexivity.
  - repeat constructor.
  - exists 1%nat. reflexivity.
  - reflexivity.
  - apply perm_swap.
Defined.

(** ** Synthesizers *)

Lemma synthesized_Forall (P : list bool -> Prop) w xs fr n locs w' :
  synthesized w xs fr n locs w' ->
  (forall g, P (flipped fr xs g).1) ->
  Forall (fun l => exists ys, heap w' !! l = Some ys /\ P ys) locs.
Proof.
  intros Hs HP. apply Forall_forall. intros l Hl.
  destruct (synthesized_lookup _ _ _ _ _ _ _ Hs Hl) as [g Hg].
  exists (flipped fr xs g).1. split; [done|apply HP].
Qed.

(** C6.  With [flip_ratio = 1], whatever the ground truth, the count and the
    generator, [create_classifiers] returns [count] classifiers, each the
    exact complement of the ground truth: [rng.random()] is always below
    [1]. *)
Theorem create_classifiers_flip_ratio_one w gt xs n :
  heap w !! gt = Some xs ->
  exists locs w',
    create_classifiers gt n f_one w = Ok (locs, w') /\
    length locs = Z.to_nat n /\
    Forall (fun l => heap w' !! l = Some (map negb xs)) locs.
Proof.
  intros Hgt.
  destruct (create_classifiers_spec gt xs n f_one w Hgt) as (locs & w' & Hrun & Hs).
  exists locs, w'. split; [done|]. split; [apply Hs|].
  apply Forall_forall. intros l Hl.
  destruct (synthesized_lookup _ _ _ _ _ _ _ Hs Hl) as [g ->].
  by rewrite flipped_one.
Qed.

(** Two classifiers derived from [[True, False, False]]. *)
Lemma create_classifiers_flip_ratio_one_witness :
  exists locs w',
    create_classifiers 1%positive 2 f_one (one_list_world [true; false; false] 0)
    = Ok (locs, w') /\
    length locs = Z.to_nat 2 /\
    Forall (fun l => heap w' !! l = Some (map negb [true; false; false])) locs.
Proof.
  apply (create_classifiers_flip_ratio_one
           (one_list_world [true; false; false] 0) 1%positive [true; false; false] 2).
  reflexivity.
Defined.

Lemma agreement_rate_self (xs : list bool) :
  xs <> [] -> (Z.of_nat (length xs) < 2 ^ 53)%Z -> agreement_rate xs xs = Ok f_one.
Proof.
  intros Hne Hlen. unfold agreement_rate.
  rewrite Nat.eqb_refl. simpl negb. cbv iota.
  destruct (Nat.eqb_spec (length xs) 0) as [E|E].
  { destruct xs; [done|discriminate E]. }
  assert (Hcount : length (filter (fun p : bool * bool => Bool.eqb p.1 p.2) (zip xs xs))
                   = length xs).
  { clear. induction xs as [|x xs IH]; [done|]. cbn [zip zip_with].
    rewrite filter_cons_True; [simpl; by rewrite IH|]. simpl. by destruct x. }
  rewrite Hcount, fdiv_of_Z_self; [done|lia].
Qed.

(** C7.  With [flip_ratio = 0], whatever the ground truth, the count and the
    generator, [create_classifiers] returns [count] classifiers identical to
    the ground truth: [rng.random()] is never below [0].  On a non-empty
    ground truth (of fewer than [2^53] samples) the agreement rate of such a
    classifier with the ground truth is exactly [1.0]. *)
Theorem create_classifiers_flip_ratio_zero w gt xs n :
  heap w !! gt = Some xs ->
  exists locs w',
    create_classifiers gt n f_zero w = Ok (locs, w') /\
    length locs = Z.to_nat n /\
    Forall (fun l => exists ys,
              heap w' !! l = Some ys /\ ys = xs /\
              (xs <> [] -> (Z.of_nat (length xs) < 2 ^ 53)%Z ->
               agreement_rate ys xs = Ok f_one)) locs.
Proof.
  intros Hgt.
  destruct (create_classifiers_spec gt xs n f_zero w Hgt) as (locs & w' & Hrun & Hs).
  exists locs, w'. split; [done|]. split; [apply Hs|].
  apply Forall_forall. intros l Hl.
  destruct (synthesized_lookup _ _ _ _ _ _ _ Hs Hl) as [g Hg].
  rewrite flipped_zero in Hg. exists xs. split; [done|]. split; [done|].
  apply agreement_rate_self.
Qed.

(** Two classifiers derived from [[True, False, False]], with the largest
    draws the generator can make. *)
Lemma create_classifiers_flip_ratio_zero_witness :
  exists locs w',
    create_classifiers 1%positive 2 f_zero
      (one_list_world [true; false; false] (2 ^ 64 - 1))
    = Ok (locs, w') /\
    length locs = Z.to_nat 2 /\
    Forall (fun l => exists ys,
              heap w' !! l = Some ys /\ ys = [true; false; false] /\
              agreement_rate ys [true; false; false] = Ok f_one) locs.
Proof.
  destruct (create_classifiers_flip_ratio_zero
              (one_list_world [true; false; false] (2 ^ 64 - 1))
              1%positive [true; false; false] 2)
    as (locs & w' & Hrun & Hlen & Hall); [reflexivity|].
  exists locs, w'. split; [exact Hrun|]. split; [exact Hlen|].
  eapply Forall_impl; [exact Hall|]. intros l (ys & Hl & Hys & Hagree).
  exists ys. split; [exact Hl|]. split; [exact Hys|].
  apply Hagree; [discriminate|reflexivity].
Defined.

(** C8.  Every sequence of one experiment has the length of the sequence it
    comes from.  [create_classifiers] and [make_corr_classifiers] return
    [count] list objects, each as long as the reference sequence and aligned
    with it (bit [i] is bit [i] of the reference, or its negation);
    [fuzzy_ground] returns as many values as it is given bits; [do_majority]
    and [fuzzy_ensemble] return one value per position of the ensemble's
    sequences. *)
Theorem sequences_keep_their_length
    w ref xs count fr (input : list bool)
    (hard : list (list bool)) (soft : list (list float)) N :
  heap w !! ref = Some xs -> (0 <= count)%Z ->
  hard <> [] -> Forall (fun r => length r = N) hard ->
  soft <> [] -> Forall (fun r => length r = N) soft ->
  (exists locs w',
     create_classifiers ref count fr w = Ok (locs, w') /\
     Z.of_nat (length locs) = count /\
     Forall (fun l => exists ys, heap w' !! l = Some ys /\ length ys = length xs /\
                Forall2 (fun y x => y = x \/ y = negb x) ys xs) locs) /\
  (exists locs w',
     make_corr_classifiers ref fr count w = Ok (locs, w') /\
     Z.of_nat (length locs) = count /\
     Forall (fun l => exists ys, heap w' !! l = Some ys /\ length ys = length xs /\
                Forall2 (fun y x => y = x \/ y = negb x) ys xs) locs) /\
  (exists out w', fuzzy_ground input w = Ok (out, w') /\ length out = length input) /\
  (exists out, do_majority hard = Ok (Array1 out) /\ length out = N) /\
  (exists out, fuzzy_ensemble soft = Ok (Array1 out) /\ length out = N).
Proof.
  intros Href Hcount Hhard Hhard_len Hsoft Hsoft_len.
  assert (Hshape : forall g, length (flipped fr xs g).1 = length xs /\
            Forall2 (fun y x => y = x \/ y = negb x) (flipped fr xs g).1 xs).
  { intros g. split; [apply flipped_length|apply flipped_aligned]. }
  repeat split.
  - destruct (create_classifiers_spec ref xs count fr w Href) as (locs & w' & Hrun & Hs).
    exists locs, w'. split; [done|]. split.
    + destruct Hs as (-> & _). lia.
    + by apply (synthesized_Forall _ _ _ _ _ _ _ Hs).
  - destruct (make_corr_classifiers_spec ref xs count fr w Href) as (locs & w' & Hrun & Hs).
    exists locs, w'. split; [done|]. split.
    + destruct Hs as (-> & _). lia.
    + by apply (synthesized_Forall _ _ _ _ _ _ _ Hs).
  - destruct (fuzzy_ground_spec input w) as (out & g' & Hrun & Hall).
    eexists _, _. split; [exact Hrun|]. symmetry. by eapply Forall2_length.
  - by apply do_majority_shape.
  - by apply (do_majority_shape soft N).
Qed.

(** One experiment on a ground truth of two samples. *)
Lemma sequences_keep_their_length_witness :
  (exists locs w',
     create_classifiers 1%positive 2 f_half (one_list_world [true; false] 0)
     = Ok (locs, w') /\
     Z.of_nat (length locs) = 2%Z /\
     Forall (fun l => exists ys, heap w' !! l = Some ys /\
                length ys = length [true; false] /\
                Forall2 (fun y x => y = x \/ y = negb x) ys [true; false]) locs) /\
  (exists locs w',
     make_corr_classifiers 1%positive f_half 2 (one_list_world [true; false] 0)
     = Ok (locs, w') /\
     Z.of_nat (length locs) = 2%Z /\
     Forall (fun l => exists ys, heap w' !! l = Some ys /\
                length ys = length [true; false] /\
                Forall2 (fun y x => y = x \/ y = negb x) ys [true; false]) locs) /\
  (exists out w',
     fuzzy_ground [true; true; false] (one_list_world [true; false] 0) = Ok (out, w') /\
     length out = length [true; true; false]) /\
  (exists out,
     do_majority [[true; false]; [false; false]; [true; true]] = Ok (Array1 out) /\
     length out = 2%nat) /\
  (exists out,
     fuzzy_ensemble [[f_half; f_zero]; [f_one; f_half]] = Ok (Array1 out) /\
     length out = 2%nat).
Proof.
  apply (sequences_keep_their_length
           (one_list_world [true; false] 0) 1%positive [true; false] 2 f_half
           [true; true; false]
           [[true; false]; [false; false]; [true; true]]
           [[f_half; f_zero]; [f_one; f_half]] 2).
  - reflexivity.
  - discriminate.
  - discriminate.
  - repeat constructor.
  - discriminate.
  - repeat constructor.
Defined.

(** C9.  Neither synthesizer mutates the sequence it starts from: after
    [create_classifiers] the [ground_truth] list, and after
    [make_corr_classifiers] the [base_sys] list, hold what they held before,
    as does every other list that existed; the flips land in new list
    objects, none of which is the reference. *)
Theorem synthesizers_leave_reference_unchanged w ref xs count fr :
  heap w !! ref = Some xs ->
  (exists locs w',
     create_classifiers ref count fr w = Ok (locs, w') /\
     heap w' !! ref = Some xs /\ (ref ∉ locs) /\
     forall l ys, heap w !! l = Some ys -> heap w' !! l = Some ys) /\
  (exists locs w',
     make_corr_classifiers ref fr count w = Ok (locs, w') /\
     heap w' !! ref = Some xs /\ (ref ∉ locs) /\
     forall l ys, heap w !! l = Some ys -> heap w' !! l = Some ys).
Proof.
  intros Href.
  assert (Hframe : forall locs w', synthesized w xs fr (Z.to_nat count) locs w' ->
            heap w' !! ref = Some xs /\ (ref ∉ locs) /\
            forall l ys, heap w !! l = Some ys -> heap w' !! l = Some ys).
  { intros locs w' Hs. split; [by eapply synthesized_frame|]. split.
    - intros Hin. destruct Hs as (_ & _ & Hnew & _). specialize (Hnew _ Hin). congruence.
    - intros l ys. by eapply synthesized_frame. }
  split.
  - destruct (create_classifiers_spec ref xs count fr w Href) as (locs & w' & Hrun & Hs).
    exists locs, w'. split; [done|]. by apply Hframe.
  - destruct (make_corr_classifiers_spec ref xs count fr w Href) as (locs & w' & Hrun & Hs).
    exists locs, w'. split; [done|]. by apply Hframe.
Qed.

(** Three classifiers, every bit flipped, derived from [[True, False]]. *)
Lemma synthesizers_leave_reference_unchanged_witness :
  (exists locs w',
     create_classifiers 1%positive 3 f_one (one_list_world [true; false] 0)
     = Ok (locs, w') /\
     heap w' !! 1%positive = Some [true; false] /\ (1%positive ∉ locs) /\
     forall l ys, heap (one_list_world [true; false] 0) !! l = Some ys ->
                  heap w' !! l = Some ys) /\
  (exists locs w',
     make_corr_classifiers 1%positive f_one 3 (one_list_world [true; false] 0)
     = Ok (locs, w') /\
     heap w' !! 1%positive = Some [true; false] /\ (1%positive ∉ locs) /\
     forall l ys, heap (one_list_world [true; false] 0) !! l = Some ys ->
                  heap w' !! l = Some ys).
Proof.
  apply (synthesizers_leave_reference_unchanged
           (one_list_world [true; false] 0) 1%positive [true; false] 3 f_one).
  reflexivity.
Defined.

(* ===================================================================== *)
(** * Part VI: further properties of the notebook's functions             *)
(* ===================================================================== *)

(** ** Which draw decides which bit *)

Lemma advance_by_0 g : advance_by 0 g = g.
Proof. destruct g as [ws c]. unfold advance_by. simpl. f_equal; lia. Qed.

Lemma advance_by_S n g : advance_by n (advance g) = advance_by (S n) g.
Proof. unfold advance_by, advance. simpl. f_equal; lia. Qed.

Lemma advance_by_add a b g : advance_by b (advance_by a g) = advance_by (a + b) g.
Proof. unfold advance_by. simpl. f_equal; lia. Qed.

Lemma draw_index_advance g j : draw_index (advance g) j = draw_index g (S j).
Proof. unfold draw_index, advance. simpl. do 3 f_equal; lia. Qed.

Lemma draw_index_advance_by n g j :
  draw_index (advance_by n g) j = draw_index g (n + j).
Proof. unfold draw_index, advance_by. simpl. do 3 f_equal; lia. Qed.

Lemma draw_index_bounds g j : (0 <= draw_index g j < 2 ^ 53)%Z.
Proof. apply shiftr_11_bounds, Z.mod_pos_bound. lia. Qed.

Lemma random_draw g : random g = (unit_float (draw_index g 0), advance g).
Proof.
  unfold random, draw_index, next_uint64. rewrite Nat.add_0_r.
  rewrite uint64_to_double_unit; [done|]. apply Z.mod_pos_bound. lia.
Qed.

Lemma flipped_rng fr xs g : (flipped fr xs g).2 = advance_by (length xs) g.
Proof.
  revert g. induction xs as [|b xs IH]; intros g; cbn [flipped length].
  - by rewrite advance_by_0.
  - rewrite random_draw. specialize (IH (advance g)).
    destruct (flipped fr xs (advance g)) as [ys g'']. simpl in *.
    by rewrite IH, advance_by_S.
Qed.

Lemma flipped_lookup fr xs g j (b : bool) :
  xs !! j = Some b ->
  (flipped fr xs g).1 !! j
  = Some (if flt (unit_float (draw_index g j)) fr then negb b else b).
Proof.
  revert g j. induction xs as [|x xs IH]; intros g j Hj; [done|].
  cbn [flipped]. rewrite random_draw. specialize (IH (advance g)).
  destruct (flipped fr xs (advance g)) as [ys g'']. simpl in *.
  destruct j as [|j]; simpl in *.
  - by injection Hj as ->.
  - rewrite (IH j Hj). by rewrite draw_index_advance.
Qed.

Lemma flipped_many_rng fr xs n g :
  (flipped_many fr xs n g).2 = advance_by (n * length xs) g.
Proof.
  revert g. induction n as [|n IH]; intros g; cbn [flipped_many].
  - simpl. by rewrite advance_by_0.
  - pose proof (flipped_rng fr xs g) as Hg.
    destruct (flipped fr xs g) as [ys g']. simpl in Hg. subst g'.
    specialize (IH (advance_by (length xs) g)).
    destruct (flipped_many fr xs n _) as [yss g'']. simpl in *.
    rewrite IH, advance_by_add. f_equal; lia.
Qed.

Lemma flipped_many_lookup fr xs n g c :
  (c < n)%nat ->
  (flipped_many fr xs n g).1 !! c
  = Some (flipped fr xs (advance_by (c * length xs) g)).1.
Proof.
  revert g c. induction n as [|n IH]; intros g c Hc; [lia|].
  cbn [flipped_many].
  pose proof (flipped_rng fr xs g) as Hg.
  destruct (flipped fr xs g) as [ys g'] eqn:Hflip. simpl in Hg. subst g'.
  specialize (IH (advance_by (length xs) g)).
  destruct (flipped_many fr xs n _) as [yss g'']. simpl in *.
  destruct c as [|c]; simpl.
  - by rewrite advance_by_0, Hflip.
  - rewrite IH by lia. rewrite advance_by_add. do 3 f_equal; lia.
Qed.

(** What [synthesized] says bit by bit: bit [i] of the [c]-th new list is
    bit [i] of the reference, negated exactly when draw number
    [c * len + i] is below the flip ratio. *)
Lemma synthesized_bits w xs fr n locs w' :
  synthesized w xs fr n locs w' ->
  rng w' = advance_by (n * length xs) (rng w) /\
  forall c l i (b : bool),
    locs !! c = Some l -> xs !! i = Some b ->
    exists ys, heap w' !! l = Some ys /\ length ys = length xs /\
      ys !! i = Some (if flt (unit_float (draw_index (rng w) (c * length xs + i))) fr
                      then negb b else b).
Proof.
  intros (Hlen & _ & _ & Hcont & _ & Hrng). split.
  - by rewrite Hrng, flipped_many_rng.
  - intros c l i b Hl Hb.
    destruct (Forall2_lookup_l _ _ _ _ _ Hcont Hl) as (ys & Hys & Hheap).
    assert (Hc : (c < n)%nat).
    { rewrite <- Hlen. apply lookup_lt_is_Some. by eexists. }
    rewrite flipped_many_lookup in Hys by done. injection Hys as <-.
    eexists. split; [exact Hheap|]. split; [apply flipped_length|].
    rewrite (flipped_lookup _ _ _ _ _ Hb). by rewrite draw_index_advance_by.
Qed.

(** X1.  [create_classifiers] consumes exactly one draw per bit, classifier
    after classifier: it leaves the generator [count * len(ground_truth)]
    draws further, and bit [i] of the [c]-th classifier is bit [i] of the
    ground truth, negated exactly when draw number [c * len + i] is below
    [flip_ratio]. *)
Theorem create_classifiers_bit_by_bit w gt xs n fr :
  heap w !! gt = Some xs ->
  exists locs w',
    create_classifiers gt n fr w = Ok (locs, w') /\
    length locs = Z.to_nat n /\
    rng w' = advance_by (Z.to_nat n * length xs) (rng w) /\
    forall c l i (b : bool),
      locs !! c = Some l -> xs !! i = Some b ->
      exists ys, heap w' !! l = Some ys /\ length ys = length xs /\
        ys !! i = Some (if flt (unit_float (draw_index (rng w) (c * length xs + i))) fr
                        then negb b else b).
Proof.
  intros Hgt.
  destruct (create_classifiers_spec gt xs n fr w Hgt) as (locs & w' & Hrun & Hs).
  destruct (synthesized_bits _ _ _ _ _ _ Hs) as [Hrng Hbits].
  exists locs, w'. split; [done|]. split; [apply Hs|]. by split.
Qed.

(** Two classifiers of two bits each, every draw equal to [0.5], and a flip
    ratio of [0.4]. *)
Lemma create_classifiers_bit_by_bit_witness :
  exists locs w',
    create_classifiers 1%positive 2 (fdiv (of_Z 2) (of_Z 5))
      (one_list_world [true; false] (2 ^ 63))
    = Ok (locs, w') /\
    length locs = Z.to_nat 2 /\
    rng w' = advance_by (Z.to_nat 2 * length [true; false])
               (rng (one_list_world [true; false] (2 ^ 63))) /\
    forall c l i (b : bool),
      locs !! c = Some l -> [true; false] !! i = Some b ->
      exists ys, heap w' !! l = Some ys /\ length ys = length [true; false] /\
        ys !! i = Some (if flt (unit_float
                                  (draw_index (rng (one_list_world [true; false] (2 ^ 63)))
                                     (c * length [true; false] + i)))
                                (fdiv (of_Z 2) (of_Z 5))
                        then negb b else b).
Proof.
  apply (create_classifiers_bit_by_bit
           (one_list_world [true; false] (2 ^ 63)) 1%positive [true; false] 2
           (fdiv (of_Z 2) (of_Z 5))).
  reflexivity.
Defined.

(** X2.  Started from the same state on the same reference sequence,
    [make_corr_classifiers] builds bit for bit the classifiers that
    [create_classifiers] builds, and leaves the generator in the same state:
    the two functions differ only in when the copies are made. *)
Theorem make_corr_classifiers_same_bits w ref xs n fr :
  heap w !! ref = Some xs ->
  exists locs w1 locs' w2 yss,
    create_classifiers ref n fr w = Ok (locs, w1) /\
    make_corr_classifiers ref fr n w = Ok (locs', w2) /\
    Forall2 (fun l ys => heap w1 !! l = Some ys) locs yss /\
    Forall2 (fun l ys => heap w2 !! l = Some ys) locs' yss /\
    length yss = Z.to_nat n /\
    rng w1 = rng w2.
Proof.
  intros Href.
  destruct (create_classifiers_spec ref xs n fr w Href) as (locs & w1 & Hrun1 & Hs1).
  destruct (make_corr_classifiers_spec ref xs n fr w Href) as (locs' & w2 & Hrun2 & Hs2).
  exists locs, w1, locs', w2, (flipped_many fr xs (Z.to_nat n) (rng w)).1.
  destruct Hs1 as (_ & _ & _ & Hc1 & _ & Hr1). destruct Hs2 as (_ & _ & _ & Hc2 & _ & Hr2).
  repeat split; try done; [apply flipped_many_length|congruence].
Qed.

Lemma make_corr_classifiers_same_bits_witness :
  exists locs w1 locs' w2 yss,
    create_classifiers 1%positive 2 f_half (one_list_world [true; false] 0)
    = Ok (locs, w1) /\
    make_corr_classifiers 1%positive f_half 2 (one_list_world [true; false] 0)
    = Ok (locs', w2) /\
    Forall2 (fun l ys => heap w1 !! l = Some ys) locs yss /\
    Forall2 (fun l ys => heap w2 !! l = Some ys) locs' yss /\
    length yss = Z.to_nat 2 /\
    rng w1 = rng w2.
Proof.
  apply (make_corr_classifiers_same_bits
           (one_list_world [true; false] 0) 1%positive [true; false] 2 f_half).
  reflexivity.
Defined.

(** X3.  The edge ratios of [make_corr_classifiers]: with [flip = 1] every
    new system is the exact complement of [base_sys], with [flip = 0] every
    new system is an exact copy of it, whatever the generator. *)
Theorem make_corr_classifiers_edge_ratios w base xs n :
  heap w !! base = Some xs ->
  (exists locs w',
     make_corr_classifiers base f_one n w = Ok (locs, w') /\
     length locs = Z.to_nat n /\
     Forall (fun l => heap w' !! l = Some (map negb xs)) locs) /\
  (exists locs w',
     make_corr_classifiers base f_zero n w = Ok (locs, w') /\
     length locs = Z.to_nat n /\
     Forall (fun l => heap w' !! l = Some xs) locs).
Proof.
  intros Hbase. split.
  - destruct (make_corr_classifiers_spec base xs n f_one w Hbase) as (locs & w' & Hrun & Hs).
    exists locs, w'. split; [done|]. split; [apply Hs|].
    apply Forall_forall. intros l Hl.
    destruct (synthesized_lookup _ _ _ _ _ _ _ Hs Hl) as [g ->]. by rewrite flipped_one.
  - destruct (make_corr_classifiers_spec base xs n f_zero w Hbase) as (locs & w' & Hrun & Hs).
    exists locs, w'. split; [done|]. split; [apply Hs|].
    apply Forall_forall. intros l Hl.
    destruct (synthesized_lookup _ _ _ _ _ _ _ Hs Hl) as [g ->]. by rewrite flipped_zero.
Qed.

Lemma make_corr_classifiers_edge_ratios_witness :
  (exists locs w',
     make_corr_classifiers 1%positive f_one 2 (one_list_world [true; false] (2 ^ 63))
     = Ok (locs, w') /\
     length locs = Z.to_nat 2 /\
     Forall (fun l => heap w' !! l = Some (map negb [true; false])) locs) /\
  (exists locs w',
     make_corr_classifiers 1%positive f_zero 2 (one_list_world [true; false] (2 ^ 63))
     = Ok (locs, w') /\
     length locs = Z.to_nat 2 /\
     Forall (fun l => heap w' !! l = Some [true; false]) locs).
Proof.
  apply (make_corr_classifiers_edge_ratios
           (one_list_world [true; false] (2 ^ 63)) 1%positive [true; false] 2).
  reflexivity.
Defined.

(** X4.  The lists both synthesizers return are new objects, pairwise
    distinct: none of them existed before the call, so writing to one of
    them later changes neither another classifier nor any older list. *)
Theorem synthesizers_return_fresh_lists w ref xs n fr :
  heap w !! ref = Some xs ->
  (exists locs w',
     create_classifiers ref n fr w = Ok (locs, w') /\
     NoDup locs /\ Forall (fun l => heap w !! l = None /\ is_Some (heap w' !! l)) locs) /\
  (exists locs w',
     make_corr_classifiers ref fr n w = Ok (locs, w') /\
     NoDup locs /\ Forall (fun l => heap w !! l = None /\ is_Some (heap w' !! l)) locs).
Proof.
  intros Href.
  assert (Hfresh : forall locs w', synthesized w xs fr (Z.to_nat n) locs w' ->
            NoDup locs /\
            Forall (fun l => heap w !! l = None /\ is_Some (heap w' !! l)) locs).
  { intros locs w' Hs. split; [apply Hs|]. apply Forall_forall. intros l Hl. split.
    - destruct Hs as (_ & _ & Hnew & _). by apply Hnew.
    - destruct (synthesized_lookup _ _ _ _ _ _ _ Hs Hl) as [g ->]. by eexists. }
  split.
  - destruct (create_classifiers_spec ref xs n fr w Href) as (locs & w' & Hrun & Hs).
    exists locs, w'. split; [done|]. by apply Hfresh.
  - destruct (make_corr_classifiers_spec ref xs n fr w Href) as (locs & w' & Hrun & Hs).
    exists locs, w'. split; [done|]. by apply Hfresh.
Qed.

Lemma synthesizers_return_fresh_lists_witness :
  (exists locs w',
     create_classifiers 1%positive 3 f_half (one_list_world [true; false] 0)
     = Ok (locs, w') /\
     NoDup locs /\
     Forall (fun l => heap (one_list_world [true; false] 0) !! l = None /\
                      is_Some (heap w' !! l)) locs) /\
  (exists locs w',
     make_corr_classifiers 1%positive f_half 3 (one_list_world [true; false] 0)
     = Ok (locs, w') /\
     NoDup locs /\
     Forall (fun l => heap (one_list_world [true; false] 0) !! l = None /\
                      is_Some (heap w' !! l)) locs).
Proof.
  apply (synthesizers_return_fresh_lists
           (one_list_world [true; false] 0) 1%positive [true; false] 3 f_half).
  reflexivity.
Defined.

(** ** Ground truth and fuzzy values, draw by draw *)

Section DrawAboveHalf.
Local Open Scope Z_scope.

Lemma unit_float_gt_half k :
  (0 <= k < 2 ^ 53)%Z -> flt f_half (unit_float k) = (2 ^ 52 <? k)%Z.
Proof.
  intros Hk. unfold unit_float. destruct (Z.eqb_spec k 0) as [->|Hne]; [done|].
  pose proof (mant_bounds k ltac:(lia)) as Hm.
  pose proof (Zdigits2_le_53 k ltac:(lia)) as H53.
  destruct (Zdigits2_spec k) as (Hn & Hlo & Hhi); [lia|].
  unfold flt, SFltb, SFcompare, f_half, expo.
  destruct (Z.eq_dec (Zdigits2 k) 53) as [E|E].
  - assert (Hmk : mant k = k).
    { unfold mant. rewrite E. change (2 ^ (53 - 53))%Z with 1%Z. lia. }
    rewrite E, Hmk. simpl Z.compare.
    change (Pos.compare_cont Eq 4503599627370496 (Z.to_pos k))
      with (4503599627370496 ?= Z.to_pos k)%positive.
    destruct (Pos.compare_spec 4503599627370496 (Z.to_pos k));
      destruct (Z.ltb_spec (2 ^ 52) k); try done; lia.
  - assert (Hlt : (Zdigits2 k - 53 - 53 < -53)%Z) by lia.
    assert (Hcmp : (-53 ?= Zdigits2 k - 53 - 53)%Z = Gt) by (apply Z.compare_gt_iff; lia).
    rewrite Hcmp.
    assert (2 ^ Zdigits2 k <= 2 ^ 52)%Z by (apply Z.pow_le_mono_r; lia).
    destruct (Z.ltb_spec (2 ^ 52) k); [lia|done].
Qed.

End DrawAboveHalf.

Lemma coin_flips_indexed (js : list nat) :
  forall w, exists bits,
    list_comp js (fun _ => r <- rng_random ;; ret (flt f_half r)) w
    = Ok (bits, {| heap := heap w; rng := advance_by (length js) (rng w) |}) /\
    length bits = length js /\
    forall j, (j < length js)%nat ->
      bits !! j = Some (2 ^ 52 <? draw_index (rng w) j)%Z.
Proof.
  induction js as [|x js IH]; intros w.
  - exists []. simpl. unfold ret. rewrite advance_by_0, world_eta.
    split; [done|]. split; [done|]. intros j Hj. lia.
  - cbn [list_comp].
    assert (Hbody : (r <- rng_random ;; ret (flt f_half r)) w
                    = Ok ((2 ^ 52 <? draw_index (rng w) 0)%Z,
                          {| heap := heap w; rng := advance (rng w) |})).
    { rewrite (bind_run _ _ _ _ _ (rng_random_run w)), random_draw. unfold ret. simpl.
      by rewrite unit_float_gt_half by apply draw_index_bounds. }
    rewrite (bind_run _ _ _ _ _ Hbody).
    destruct (IH {| heap := heap w; rng := advance (rng w) |}) as (bits & Hrun & Hlen & Hbits).
    rewrite (bind_run _ _ _ _ _ Hrun). unfold ret. simpl in *.
    eexists. split; [by rewrite advance_by_S|]. split; [simpl; by rewrite Hlen|].
    intros [|j] Hj; simpl; [done|].
    rewrite Hbits by lia. by rewrite draw_index_advance.
Qed.

(** X5.  [create_ground_truth] returns a list object that did not exist
    before, holding [num_bits] booleans (none when [num_bits] is not
    positive); every other object is as it was, the generator has made
    exactly that many draws, and bit [j] is true exactly when the top 53
    bits of the [j]-th word exceed [2^52], that is when the draw is above
    [0.5]; a draw of exactly [0.5] gives [False]. *)
Theorem create_ground_truth_bits num_bits w :
  exists l bits w',
    create_ground_truth num_bits w = Ok (l, w') /\
    heap w !! l = None /\
    heap w' = <[l := bits]> (heap w) /\
    rng w' = advance_by (Z.to_nat num_bits) (rng w) /\
    length bits = Z.to_nat num_bits /\
    forall j, (j < Z.to_nat num_bits)%nat ->
      bits !! j = Some (2 ^ 52 <? draw_index (rng w) j)%Z.
Proof.
  unfold create_ground_truth.
  destruct (coin_flips_indexed (range num_bits) w) as (bits & Hrun & Hlen & Hbits).
  rewrite range_length in *.
  rewrite (bind_run _ _ _ _ _ Hrun). unfold list_new. simpl.
  eexists _, bits, _. split; [done|]. split; [apply fresh_loc_None|]. done.
Qed.

Lemma fuzzy_ground_indexed input :
  forall w, exists out,
    fuzzy_ground input w
    = Ok (out, {| heap := heap w; rng := advance_by (length input) (rng w) |}) /\
    length out = length input /\
    forall j (b : bool), input !! j = Some b ->
      out !! j = Some (if b
                       then fdiv (fadd (unit_float (draw_index (rng w) j)) f_one) f_two
                       else fdiv (unit_float (draw_index (rng w) j)) f_two).
Proof.
  induction input as [|x input IH]; intros w.
  - exists []. simpl. unfold ret. by rewrite advance_by_0, world_eta.
  - cbn [fuzzy_ground]. rewrite (bind_run _ _ _ _ _ (rng_random_run w)), random_draw.
    cbn [fst snd].
    destruct (IH {| heap := heap w; rng := advance (rng w) |}) as (out & Hrun & Hlen & Hout).
    rewrite (bind_run _ _ _ _ _ Hrun). unfold ret. simpl in *.
    eexists. split; [by rewrite advance_by_S|]. split; [simpl; by rewrite Hlen|].
    intros [|j] b Hj; simpl in *.
    + by injection Hj as ->.
    + rewrite (Hout j b Hj). by rewrite draw_index_advance.
Qed.

(** X6.  [fuzzy_ground] makes one draw per bit and touches no list.
    Rounding its [j]-th value gives [True] exactly when the [j]-th bit is
    true and the top 53 bits of the [j]-th word are at least 2: a false bit
    never rounds to [True], and a true bit rounds to [False] only when its
    draw is [0.0] or [2^-53]. *)
Theorem fuzzy_ground_round_trip input w :
  exists out w',
    fuzzy_ground input w = Ok (out, w') /\
    heap w' = heap w /\
    rng w' = advance_by (length input) (rng w) /\
    length out = length input /\
    forall j (b : bool), input !! j = Some b ->
      exists v, out !! j = Some v /\
        round_to_bool v = b && (2 <=? draw_index (rng w) j)%Z.
Proof.
  destruct (fuzzy_ground_indexed input w) as (out & Hrun & Hlen & Hout).
  eexists _, _. split; [exact Hrun|]. split; [done|]. split; [done|]. split; [done|].
  intros j b Hj. eexists. split; [by apply Hout|].
  pose proof (draw_index_bounds (rng w) j) as Hk. destruct b; simpl.
  - by apply fuzzy_round_trip_true.
  - by apply fuzzy_round_trip_false.
Qed.

(** X7.  When none of the draws it consumes is [0.0] or [2^-53],
    [fuzzy_ground] keeps its promise: rounding the output gives back the
    input sequence. *)
Theorem fuzzy_ground_round_trip_when_draws_not_tiny input w :
  (forall j, (j < length input)%nat -> (2 <= draw_index (rng w) j)%Z) ->
  exists out w',
    fuzzy_ground input w = Ok (out, w') /\
    map round_to_bool out = input.
Proof.
  intros Hdraws.
  destruct (fuzzy_ground_indexed input w) as (out & Hrun & Hlen & Hout).
  eexists _, _. split; [exact Hrun|].
  apply list_eq. intros j. rewrite list_lookup_fmap.
  destruct (input !! j) as [b|] eqn:Hj.
  - rewrite (Hout j b Hj). simpl. f_equal.
    pose proof (draw_index_bounds (rng w) j) as Hk.
    assert (Hj' : (j < length input)%nat) by (apply lookup_lt_is_Some; by eexists).
    specialize (Hdraws j Hj'). destruct b.
    + rewrite fuzzy_round_trip_true by done. by apply Z.leb_le.
    + by apply fuzzy_round_trip_false.
  - apply lookup_ge_None in Hj. rewrite (lookup_ge_None_2 out j); [done|lia].
Qed.

Lemma fuzzy_ground_round_trip_when_draws_not_tiny_witness :
  exists out w',
    fuzzy_ground [true; false; true] (one_list_world [] (2 ^ 12)) = Ok (out, w') /\
    map round_to_bool out = [true; false; true].
Proof.
  apply (fuzzy_ground_round_trip_when_draws_not_tiny
           [true; false; true] (one_list_world [] (2 ^ 12))).
  intros j _. vm_compute. discriminate.
Defined.

Lemma fuzzy_value_in_unit_interval k (b : bool) :
  (0 <= k < 2 ^ 53)%Z ->
  let v := if b then fdiv (fadd (unit_float k) f_one) f_two
           else fdiv (unit_float k) f_two in
  fle f_zero v = true /\ fle v f_one = true.
Proof.
  intros Hk. destruct b; simpl.
  - rewrite fuzzy_true_value by done. pose proof (rne_div_unit_bounds k Hk).
    split; [|by apply fle_pack_one].
    unfold pack. by destruct (_ =? _)%Z.
  - destruct (fuzzy_false_value k Hk) as [->|(m & e & -> & Hm & He)]; [done|].
    split; [done|]. apply fle_finite_exp. lia.
Qed.

Lemma fuzzify_all_indexed (P : float -> Prop) N (locs : list loc) :
  (forall k (b : bool), (0 <= k < 2 ^ 53)%Z ->
     P (if b then fdiv (fadd (unit_float k) f_one) f_two
        else fdiv (unit_float k) f_two)) ->
  forall w,
    Forall (fun l => exists ys, heap w !! l = Some ys /\ length ys = N) locs ->
    exists outs,
      list_comp locs (fun classifier =>
        bits <- list_read classifier ;; fuzzy_ground bits) w
      = Ok (outs, {| heap := heap w; rng := advance_by (length locs * N) (rng w) |}) /\
      length outs = length locs /\
      Forall (fun out : list float => length out = N /\ Forall P out) outs.
Proof.
  intros HP. induction locs as [|l locs IH]; intros w Hall.
  - exists []. simpl. unfold ret. rewrite advance_by_0, world_eta.
    split; [done|]. split; [done|constructor].
  - apply Forall_cons in Hall as [(ys & Hl & Hys) Hall]. cbn [list_comp].
    destruct (fuzzy_ground_indexed ys w) as (out & Hrun1 & Hlen1 & Hout).
    assert (Hbody : (bits <- list_read l ;; fuzzy_ground bits) w
                    = Ok (out, {| heap := heap w;
                                  rng := advance_by (length ys) (rng w) |})).
    { by rewrite (bind_run _ _ _ _ _ (list_read_run _ _ _ Hl)). }
    rewrite (bind_run _ _ _ _ _ Hbody).
    destruct (IH {| heap := heap w; rng := advance_by (length ys) (rng w) |} Hall)
      as (outs & Hrun & Hlen & Houts).
    rewrite (bind_run _ _ _ _ _ Hrun). unfold ret. cbn [heap rng] in *.
    exists (out :: outs). split; [|split; [simpl; by rewrite Hlen|]].
    + rewrite advance_by_add, Hys. done.
    + constructor; [|done]. split; [lia|].
      apply Forall_lookup. intros j v Hv.
      assert (Hj : (j < length ys)%nat).
      { rewrite <- Hlen1. apply lookup_lt_is_Some. by eexists. }
      destruct (lookup_lt_is_Some_2 ys j Hj) as [b Hb].
      rewrite (Hout j b Hb) in Hv. injection Hv as <-.
      apply HP, draw_index_bounds.
Qed.

Lemma create_fuzzy_classifiers_full (P : float -> Prop) w gt xs n fr :
  (forall k (b : bool), (0 <= k < 2 ^ 53)%Z ->
     P (if b then fdiv (fadd (unit_float k) f_one) f_two
        else fdiv (unit_float k) f_two)) ->
  heap w !! gt = Some xs ->
  exists outs w',
    create_fuzzy_classifiers gt n fr w = Ok (outs, w') /\
    length outs = Z.to_nat n /\
    Forall (fun out : list float => length out = length xs /\ Forall P out) outs /\
    rng w' = advance_by (2 * (Z.to_nat n * length xs)) (rng w) /\
    heap w' !! gt = Some xs.
Proof.
  intros HP Hgt. unfold create_fuzzy_classifiers.
  destruct (create_classifiers_spec gt xs n fr w Hgt) as (locs & w1 & Hrun & Hs).
  rewrite (bind_run _ _ _ _ _ Hrun).
  destruct (fuzzify_all_indexed P (length xs) locs HP w1) as (outs & Hrun' & Hlen & Houts).
  { apply Forall_forall. intros l Hl.
    destruct (synthesized_lookup _ _ _ _ _ _ _ Hs Hl) as [g Hg].
    eexists. split; [exact Hg|]. apply flipped_length. }
  eexists _, _. split; [exact Hrun'|].
  pose proof (synthesized_frame _ _ _ _ _ _ _ _ Hs Hgt) as Hframe.
  destruct (synthesized_bits _ _ _ _ _ _ Hs) as [Hrng _].
  destruct Hs as (Hn & _). simpl.
  split; [by rewrite Hlen|]. split; [done|]. split; [|done].
  rewrite Hrng, advance_by_add, Hn. f_equal; lia.
Qed.

(** X8.  [create_fuzzy_classifiers] returns [num_classifiers] sequences,
    each with one value in [[0, 1]] per sample of the ground truth; it makes
    two draws per value (one to flip the bit, one to fuzz it) and leaves the
    ground truth as it was. *)
Theorem create_fuzzy_classifiers_shape w gt xs n fr :
  heap w !! gt = Some xs ->
  exists outs w',
    create_fuzzy_classifiers gt n fr w = Ok (outs, w') /\
    length outs = Z.to_nat n /\
    Forall (fun out : list float =>
              length out = length xs /\
              Forall (fun v => fle f_zero v = true /\ fle v f_one = true) out) outs /\
    rng w' = advance_by (2 * (Z.to_nat n * length xs)) (rng w) /\
    heap w' !! gt = Some xs.
Proof.
  apply create_fuzzy_classifiers_full. intros k b Hk.
  by apply fuzzy_value_in_unit_interval.
Qed.

Lemma create_fuzzy_classifiers_shape_witness :
  exists outs w',
    create_fuzzy_classifiers 1%positive 3 f_half (one_list_world [true; false] 0)
    = Ok (outs, w') /\
    length outs = Z.to_nat 3 /\
    Forall (fun out : list float =>
              length out = length [true; false] /\
              Forall (fun v => fle f_zero v = true /\ fle v f_one = true) out) outs /\
    rng w' = advance_by (2 * (Z.to_nat 3 * length [true; false]))
               (rng (one_list_world [true; false] 0)) /\
    heap w' !! 1%positive = Some [true; false].
Proof.
  apply (create_fuzzy_classifiers_shape
           (one_list_world [true; false] 0) 1%positive [true; false] 3 f_half).
  reflexivity.
Defined.

(** ** The hard vote *)

Lemma votes_unanimous (cs : list (list bool)) i (b : bool) :
  Forall (fun r => r !! i = Some b) cs ->
  votes cs i = if b then length cs else 0%nat.
Proof.
  intros Hall. induction Hall as [|r cs Hr _ IH].
  - by destruct b.
  - rewrite (votes_cons r cs i b Hr), IH. by destruct b.
Qed.

Lemma votes_complement (cs : list (list bool)) N i :
  Forall (fun r => length r = N) cs -> (i < N)%nat ->
  (votes (map (map negb) cs) i + votes cs i = length cs)%nat.
Proof.
  intros Hall Hi. induction Hall as [|r cs Hr _ IH]; [done|].
  destruct (lookup_lt_is_Some_2 r i ltac:(lia)) as [b Hb].
  cbn [map]. rewrite (votes_cons r cs i b Hb).
  rewrite (votes_cons (map negb r) (map (map negb) cs) i (negb b)).
  - destruct b; simpl in *; lia.
  - by rewrite list_lookup_fmap, Hb.
Qed.

(** X9.  When every classifier of a non-empty ensemble (of fewer than
    [2^53] members) casts the same vote at a position, [do_majority] outputs
    that vote there, as [1.0] or [0.0]. *)
Theorem do_majority_unanimous (cs : list (list bool)) N i (b : bool) :
  cs <> [] -> Forall (fun r => length r = N) cs ->
  (Z.of_nat (length cs) < 2 ^ 53)%Z ->
  Forall (fun r => r !! i = Some b) cs ->
  exists out, do_majority cs = Ok (Array1 out) /\ out !! i = Some (as_float64 b).
Proof.
  intros Hne Hall Hm Hsame.
  destruct (do_majority_votes cs N Hne Hall Hm) as (out & Hrun & _ & Hout).
  exists out. split; [done|].
  assert (Hi : (i < N)%nat).
  { destruct cs as [|r cs]; [done|].
    apply Forall_cons in Hall as [<- _]. apply Forall_cons in Hsame as [Hr _].
    apply lookup_lt_is_Some. by eexists. }
  rewrite (Hout i Hi), (votes_unanimous cs i b Hsame).
  assert (0 < length cs)%nat by (destruct cs; [done|simpl; lia]).
  destruct b.
  - by destruct (Nat.ltb_spec (length cs) (2 * length cs)); [|lia].
  - by destruct (Nat.ltb_spec (length cs) (2 * 0)); [lia|].
Qed.

Lemma do_majority_unanimous_witness :
  exists out,
    do_majority [[true; false]; [true; true]; [true; false]] = Ok (Array1 out) /\
    out !! 0%nat = Some (as_float64 true).
Proof.
  apply (do_majority_unanimous [[true; false]; [true; true]; [true; false]] 2 0 true).
  - discriminate.
  - repeat constructor.
  - reflexivity.
  - repeat constructor.
Defined.

(** X10.  The hard vote does not depend on the order of the classifiers:
    every permutation of a non-empty ensemble of equally long boolean
    sequences (fewer than [2^53] of them) gives the same output array. *)
Theorem do_majority_permutation (cs cs' : list (list bool)) N :
  cs <> [] -> Forall (fun r => length r = N) cs ->
  (Z.of_nat (length cs) < 2 ^ 53)%Z ->
  Permutation cs cs' ->
  exists out, do_majority cs = Ok (Array1 out) /\ do_majority cs' = Ok (Array1 out).
Proof.
  intros Hne Hall Hm Hperm.
  assert (Hne' : cs' <> []).
  { intros ->. apply Permutation_nil_r in Hperm. done. }
  assert (Hall' : Forall (fun r => length r = N) cs') by (by rewrite <- Hperm).
  assert (Hlen : length cs' = length cs) by (by rewrite Hperm).
  destruct (do_majority_votes cs N Hne Hall Hm) as (out & Hrun & HN & Hout).
  destruct (do_majority_votes cs' N Hne' Hall') as (out' & Hrun' & HN' & Hout'); [lia|].
  exists out. split; [done|]. rewrite Hrun'. do 2 f_equal.
  apply list_eq. intros i. destruct (Nat.lt_ge_cases i N) as [Hi|Hi].
  - rewrite (Hout i Hi), (Hout' i Hi), Hlen. by rewrite (votes_perm cs cs' i Hperm).
  - rewrite !lookup_ge_None_2; [done|lia..].
Qed.

Lemma do_majority_permutation_witness :
  exists out,
    do_majority [[true; false]; [false; false]; [true; true]] = Ok (Array1 out) /\
    do_majority [[false; false]; [true; false]; [true; true]] = Ok (Array1 out).
Proof.
  apply (do_majority_permutation
           [[true; false]; [false; false]; [true; true]]
           [[false; false]; [true; false]; [true; true]] 2).
  - discriminate.
  - repeat constructor.
  - reflexivity.
  - apply perm_swap.
Defined.

(** X11.  In an ensemble of odd size the hard vote commutes with negation:
    negating every vote of every classifier negates the output at every
    position.  (In an ensemble of even size a tie gives [0.0] on both
    sides.) *)
Theorem do_majority_complement_odd (cs : list (list bool)) N :
  Forall (fun r => length r = N) cs ->
  (Z.of_nat (length cs) < 2 ^ 53)%Z ->
  Nat.Odd (length cs) ->
  exists bits,
    do_majority cs = Ok (Array1 (map as_float64 bits)) /\
    do_majority (map (map negb) cs) = Ok (Array1 (map as_float64 (map negb bits))).
Proof.
  intros Hall Hm Hodd.
  assert (Hne : cs <> []).
  { intros ->. destruct Hodd as [k Hk]. simpl in Hk. lia. }
  assert (Hne' : map (map negb) cs <> []) by (by destruct cs).
  assert (Hall' : Forall (fun r => length r = N) (map (map negb) cs)).
  { apply Forall_fmap. eapply Forall_impl; [exact Hall|].
    intros r Hr. simpl. by rewrite length_map. }
  destruct (do_majority_votes cs N Hne Hall Hm) as (out & Hrun & HN & Hout).
  destruct (do_majority_votes _ N Hne' Hall') as (out' & Hrun' & HN' & Hout').
  { by rewrite length_map. }
  rewrite length_map in Hout'.
  exists (map (fun i => (length cs <? 2 * votes cs i)%nat) (seq 0 N)).
  rewrite Hrun, Hrun'. split; do 2 f_equal; apply list_eq; intros i;
    rewrite !list_lookup_fmap; destruct (Nat.lt_ge_cases i N) as [Hi|Hi].
  - rewrite (Hout i Hi), lookup_seq_lt by done. simpl. f_equal;
      by destruct (_ <? _)%nat.
  - rewrite lookup_ge_None_2 by lia. by rewrite lookup_seq_ge.
  - rewrite (Hout' i Hi), lookup_seq_lt by done.
    pose proof (votes_complement cs N i Hall Hi) as Hsum.
    destruct Hodd as [k Hk].
    simpl. f_equal.
    set (v' := votes (map (map negb) cs) i) in *. set (v := votes cs i) in *.
    set (m := length cs) in *.
    destruct (Nat.ltb_spec m (v' + (v' + 0))); destruct (Nat.ltb_spec m (v + (v + 0)));
      try done; lia.
  - rewrite lookup_ge_None_2 by lia. by rewrite lookup_seq_ge.
Qed.

Lemma do_majority_complement_odd_witness :
  exists bits,
    do_majority [[true; false]; [false; false]; [true; true]]
    = Ok (Array1 (map as_float64 bits)) /\
    do_majority (map (map negb) [[true; false]; [false; false]; [true; true]])
    = Ok (Array1 (map as_float64 (map negb bits))).
Proof.
  apply (do_majority_complement_odd [[true; false]; [false; false]; [true; true]] 2).
  - repeat constructor.
  - reflexivity.
  - exists 1%nat. reflexivity.
Defined.

(** ** The experiment drivers *)

Lemma read_all_spec (locs : list loc) (yss : list (list bool)) w :
  Forall2 (fun l ys => heap w !! l = Some ys) locs yss ->
  list_comp locs list_read w = Ok (yss, w).
Proof.
  intros Hall. induction Hall as [|l ys locs yss Hl _ IH]; [done|].
  cbn [list_comp]. rewrite (bind_run _ _ _ _ _ (list_read_run _ _ _ Hl)).
  by rewrite (bind_run _ _ _ _ _ IH).
Qed.

Lemma votes_of_three (y0 y1 y2 : list bool) i (b0 b1 b2 : bool) :
  y0 !! i = Some b0 -> y1 !! i = Some b1 -> y2 !! i = Some b2 ->
  (3 <? 2 * votes [y0; y1; y2] i)%nat = (b0 && b1 || b0 && b2 || b1 && b2).
Proof.
  intros H0 H1 H2.
  rewrite (votes_cons _ _ _ _ H0), (votes_cons _ _ _ _ H1), (votes_cons _ _ _ _ H2).
  by destruct b0, b1, b2.
Qed.

Lemma test_majority_spec w gt xs fr :
  heap w !! gt = Some xs ->
  exists out w',
    test_majority gt fr w = Ok (Ok (Array1 out), w') /\
    length out = length xs /\
    heap w' !! gt = Some xs /\
    rng w' = advance_by (3 * length xs) (rng w) /\
    forall i (b : bool), xs !! i = Some b ->
      let vote c := if flt (unit_float (draw_index (rng w) (c * length xs + i))) fr
                    then negb b else b in
      out !! i = Some (as_float64
                         (vote 0%nat && vote 1%nat || vote 0%nat && vote 2%nat
                          || vote 1%nat && vote 2%nat)).
Proof.
  intros Hgt. unfold test_majority.
  destruct (create_classifiers_spec gt xs 3 fr w Hgt) as (locs & w1 & Hrun & Hs).
  rewrite (bind_run _ _ _ _ _ Hrun).
  pose proof (synthesized_frame _ _ _ _ _ _ _ _ Hs Hgt) as Hframe.
  destruct (synthesized_bits _ _ _ _ _ _ Hs) as [Hrng _].
  destruct Hs as (_ & _ & _ & Hcont & _).
  rewrite (bind_run _ _ _ _ _ (read_all_spec _ _ _ Hcont)). unfold ret.
  change (Z.to_nat 3) with 3%nat in *.
  set (y c := (flipped fr xs (advance_by (c * length xs) (rng w))).1).
  assert (Hyss : (flipped_many fr xs 3 (rng w)).1 = [y 0%nat; y 1%nat; y 2%nat]).
  { apply list_eq. intros c. destruct (Nat.lt_ge_cases c 3) as [Hc|Hc].
    - rewrite flipped_many_lookup by done.
      destruct c as [|[|[|c]]]; [done..|lia].
    - rewrite !lookup_ge_None_2; [done|simpl; lia|].
      rewrite flipped_many_length. lia. }
  rewrite Hyss.
  destruct (do_majority_votes [y 0%nat; y 1%nat; y 2%nat] (length xs))
    as (out & Hmaj & Hout_len & Hout).
  { discriminate. }
  { repeat constructor; apply flipped_length. }
  { reflexivity. }
  exists out, w1. rewrite Hmaj.
  split; [done|]. split; [done|]. split; [done|]. split; [done|].
  intros i b Hb.
  set (vote := fun c : nat =>
         if flt (unit_float (draw_index (rng w) (c * length xs + i))) fr
         then negb b else b).
  change (out !! i = Some (as_float64
            (vote 0%nat && vote 1%nat || vote 0%nat && vote 2%nat
             || vote 1%nat && vote 2%nat))).
  assert (Hi : (i < length xs)%nat) by (apply lookup_lt_is_Some; by eexists).
  rewrite (Hout i Hi).
  assert (Hvote : forall c, y c !! i = Some (vote c)).
  { intros c. unfold y, vote. rewrite (flipped_lookup _ _ _ _ _ Hb).
    by rewrite draw_index_advance_by. }
  change (length [y 0%nat; y 1%nat; y 2%nat]) with 3%nat.
  rewrite (votes_of_three _ _ _ i _ _ _ (Hvote 0%nat) (Hvote 1%nat) (Hvote 2%nat)).
  by destruct (_ || _).
Qed.

(** X12.  [test_majority] hands to the report one value per sample of the
    ground truth, which it leaves unchanged, after three draws per sample.
    The value at position [i] is the majority of three votes; vote [c] is
    the true label, negated exactly when draw number [c * len + i] is below
    [flip_ratio]. *)
Theorem test_majority_two_of_three w gt xs fr :
  heap w !! gt = Some xs ->
  exists out w',
    test_majority gt fr w = Ok (Ok (Array1 out), w') /\
    length out = length xs /\
    heap w' !! gt = Some xs /\
    rng w' = advance_by (3 * length xs) (rng w) /\
    forall i (b : bool), xs !! i = Some b ->
      let vote c := if flt (unit_float (draw_index (rng w) (c * length xs + i))) fr
                    then negb b else b in
      out !! i = Some (as_float64
                         (vote 0%nat && vote 1%nat || vote 0%nat && vote 2%nat
                          || vote 1%nat && vote 2%nat)).
Proof. apply test_majority_spec. Qed.

Lemma test_majority_two_of_three_witness :
  exists out w',
    test_majority 1%positive f_half (one_list_world [true; false] (2 ^ 62))
    = Ok (Ok (Array1 out), w') /\
    length out = length [true; false] /\
    heap w' !! 1%positive = Some [true; false] /\
    rng w' = advance_by (3 * length [true; false])
               (rng (one_list_world [true; false] (2 ^ 62))) /\
    forall i (b : bool), [true; false] !! i = Some b ->
      let vote c :=
        if flt (unit_float
                  (draw_index (rng (one_list_world [true; false] (2 ^ 62)))
                     (c * length [true; false] + i))) f_half
        then negb b else b in
      out !! i = Some (as_float64
                         (vote 0%nat && vote 1%nat || vote 0%nat && vote 2%nat
                          || vote 1%nat && vote 2%nat)).
Proof.
  apply (test_majority_two_of_three
           (one_list_world [true; false] (2 ^ 62)) 1%positive [true; false] f_half).
  reflexivity.
Defined.

Lemma majority_of_equal_votes (b : bool) : b && b || b && b || b && b = b.
Proof. by destruct b. Qed.

(** X13.  At the edge ratios the ensemble of [test_majority] is exact: with
    [flip_ratio = 0] the hard vote of the three classifiers is the ground
    truth itself, written [0.0] and [1.0], and with [flip_ratio = 1] it is
    its complement. *)
Theorem test_majority_edge_ratios w gt xs :
  heap w !! gt = Some xs ->
  (exists w', test_majority gt f_zero w
              = Ok (Ok (Array1 (map as_float64 xs)), w')) /\
  (exists w', test_majority gt f_one w
              = Ok (Ok (Array1 (map as_float64 (map negb xs))), w')).
Proof.
  intros Hgt. split.
  - destruct (test_majority_spec w gt xs f_zero Hgt) as (out & w' & Hrun & Hlen & _ & _ & Hout).
    exists w'. rewrite Hrun. do 4 f_equal. apply list_eq. intros i.
    rewrite list_lookup_fmap. destruct (xs !! i) as [b|] eqn:Hb.
    + rewrite (Hout i b Hb). cbv zeta.
      rewrite !unit_float_not_neg by apply draw_index_bounds.
      by rewrite majority_of_equal_votes.
    + apply lookup_ge_None in Hb. by rewrite lookup_ge_None_2 by lia.
  - destruct (test_majority_spec w gt xs f_one Hgt) as (out & w' & Hrun & Hlen & _ & _ & Hout).
    exists w'. rewrite Hrun. do 4 f_equal. apply list_eq. intros i.
    rewrite !list_lookup_fmap. destruct (xs !! i) as [b|] eqn:Hb.
    + rewrite (Hout i b Hb). cbv zeta.
      rewrite !unit_float_lt_one by apply draw_index_bounds.
      by rewrite majority_of_equal_votes.
    + apply lookup_ge_None in Hb. by rewrite lookup_ge_None_2 by lia.
Qed.

Lemma test_majority_edge_ratios_witness :
  (exists w', test_majority 1%positive f_zero (one_list_world [true; false; true] 0)
              = Ok (Ok (Array1 (map as_float64 [true; false; true])), w')) /\
  (exists w', test_majority 1%positive f_one (one_list_world [true; false; true] 0)
              = Ok (Ok (Array1 (map as_float64 (map negb [true; false; true]))), w')).
Proof.
  apply (test_majority_edge_ratios
           (one_list_world [true; false; true] 0) 1%positive [true; false; true]).
  reflexivity.
Defined.

(** ** The agreement rate *)

Section AgreementFacts.
Local Open Scope Z_scope.

Lemma rne_div_below p d q :
  0 < d -> 2 * p < (2 * q - 1) * d -> rne_div p d <= q - 1.
Proof.
  intros Hd H. unfold rne_div.
  pose proof (Z.div_mod p d ltac:(lia)). pose proof (Z.mod_pos_bound p d Hd).
  destruct (Z.compare_spec (2 * (p mod d)) d); [destruct (Z.even _)|..]; nia.
Qed.

Lemma pack_is_one Q E :
  2 ^ 52 <= Q <= 2 ^ 53 -> pack Q E = f_one ->
  (Q = 2 ^ 53 /\ E = -53) \/ (Q = 2 ^ 52 /\ E = -52).
Proof.
  intros HQ. unfold pack, f_one. destruct (Z.eqb_spec Q (2 ^ 53)) as [->|Hne].
  - intros [= HE]. left. lia.
  - intros [= Hm HE]. right. lia.
Qed.

(** A quotient of two integers below [2^53] is [1.0] only when they are
    equal, and [0.0] only when the numerator is zero. *)
Lemma fdiv_of_Z_one_iff c m :
  0 <= c <= m -> 0 < m < 2 ^ 53 ->
  fdiv (of_Z c) (of_Z m) = f_one <-> c = m.
Proof.
  intros Hc Hm. split; [|intros ->; by apply fdiv_of_Z_self].
  intros Hone. destruct (Z.eq_dec c m) as [|Hne]; [done|exfalso].
  destruct (Z.eq_dec c 0) as [->|Hc0].
  { rewrite (of_Z_pos m) in Hone by done. discriminate Hone. }
  assert (Hc' : 0 < c < 2 ^ 53) by lia.
  destruct (fdiv_of_Z c m Hc' Hm) as [Hdiv HQ]. rewrite Hdiv in Hone.
  pose proof (mant_bounds c Hc') as Bc. pose proof (mant_bounds m Hm) as Bm.
  pose proof (Zdigits2_le_53 m Hm) as Hm53.
  destruct (Zdigits2_spec c) as (Hnc & _); [lia|].
  destruct (Zdigits2_spec m) as (Hnm & _); [lia|].
  pose proof (Zdigits2_mono c m ltac:(lia)) as Hmono.
  set (a := 2 ^ (53 - Zdigits2 m)).
  assert (Ha : 0 < a) by (apply Z.pow_pos_nonneg; lia).
  assert (Em : mant m = m * a) by reflexivity.
  apply pack_is_one in Hone; [|done].
  destruct (Z.ltb_spec (mant c) (mant m)) as [Hlt|Hge].
  - (* no shift of the quotient *)
    destruct Hone as [[HQ53 HE]|[_ HE]]; [|lia].
    assert (Ec : mant c = c * a) by (apply mant_same_digits; [done|lia]).
    pose proof (rne_div_below (mant c * 2 ^ 53) (mant m * 2 ^ 0) (2 ^ 53)) as Hb.
    rewrite Ec, Em in *. change (2 ^ 0) with 1 in *. nia.
  - destruct Hone as [[HQ53 HE]|[_ HE]].
    + assert (Ec : mant c = 2 * c * a) by (apply mant_pred_digits; [done..|lia]).
      pose proof (rne_div_below (mant c * 2 ^ 53) (mant m * 2 ^ 1) (2 ^ 53)) as Hb.
      rewrite Ec, Em in *. change (2 ^ 1) with 2 in *. nia.
    + assert (Ec : mant c = c * a) by (apply mant_same_digits; [done|lia]).
      rewrite Ec, Em in *. nia.
Qed.

Lemma fdiv_of_Z_zero_iff c m :
  0 <= c < 2 ^ 53 -> 0 < m < 2 ^ 53 ->
  fdiv (of_Z c) (of_Z m) = f_zero <-> c = 0.
Proof.
  intros Hc Hm. split.
  - intros Hzero. destruct (Z.eq_dec c 0) as [|Hc0]; [done|exfalso].
    destruct (fdiv_of_Z c m ltac:(lia) Hm) as [Hdiv _]. rewrite Hdiv in Hzero.
    unfold pack in Hzero. by destruct (_ =? _).
  - intros ->. by rewrite (of_Z_pos m).
Qed.

End AgreementFacts.

Lemma agreements_le (a b : list bool) :
  (length (filter (fun p : bool * bool => Bool.eqb p.1 p.2) (zip a b)) <= length b)%nat.
Proof.
  etrans; [apply length_filter|]. rewrite length_zip_with. lia.
Qed.

Lemma agreements_all (a b : list bool) :
  length a = length b ->
  length (filter (fun p : bool * bool => Bool.eqb p.1 p.2) (zip a b)) = length b <->
  a = b.
Proof.
  revert b. induction a as [|x a IH]; intros [|y b] Hlen; try done.
  simpl in Hlen. cbn [zip zip_with]. rewrite filter_cons. cbn [fst snd].
  pose proof (agreements_le a b) as Hle. unfold zip in *.
  destruct (decide (Bool.eqb x y)) as [Hxy|Hxy].
  - apply Is_true_true, Bool.eqb_prop in Hxy as ->. simpl.
    destruct (IH b ltac:(lia)) as [IH1 IH2]. split.
    + intros [= E]. by rewrite (IH1 E).
    + intros [= E]. by rewrite (IH2 E).
  - simpl. split; [lia|]. intros [= -> _]. destruct Hxy. by destruct y.
Qed.

Lemma agreements_none (a b : list bool) :
  length a = length b ->
  length (filter (fun p : bool * bool => Bool.eqb p.1 p.2) (zip a b)) = 0%nat <->
  a = map negb b.
Proof.
  revert b. induction a as [|x a IH]; intros [|y b] Hlen; try done.
  simpl in Hlen. cbn [zip zip_with map]. rewrite filter_cons. cbn [fst snd].
  destruct (decide (Bool.eqb x y)) as [Hxy|Hxy].
  - apply Is_true_true, Bool.eqb_prop in Hxy as ->. simpl.
    split; [lia|]. intros [= E _]. by destruct y.
  - simpl. destruct (IH b ltac:(lia)) as [IH1 IH2]. split.
    + intros E. rewrite (IH1 E). f_equal. destruct x, y; try done; by destruct Hxy.
    + intros [= _ E]. by apply IH2.
Qed.

(** X14.  For two sequences of the same non-zero length (below [2^53]) the
    notebook's agreement rate is a number, and it is exact at both ends: it
    is [1.0] only when the sequences are identical and [0.0] only when each
    is the complement of the other. *)
Theorem agreement_rate_exact (a b : list bool) :
  length a = length b -> b <> [] -> (Z.of_nat (length b) < 2 ^ 53)%Z ->
  exists r, agreement_rate a b = Ok r /\
    (r = f_one <-> a = b) /\ (r = f_zero <-> a = map negb b).
Proof.
  intros Hlen Hne Hb. unfold agreement_rate.
  rewrite Hlen, Nat.eqb_refl. simpl negb. cbv iota.
  destruct (Nat.eqb_spec (length b) 0) as [E|E].
  { destruct b; [done|discriminate E]. }
  pose proof (agreements_le a b) as Hle.
  eexists. split; [reflexivity|]. split.
  - rewrite fdiv_of_Z_one_iff by lia. rewrite <- (agreements_all a b Hlen). lia.
  - rewrite fdiv_of_Z_zero_iff by lia. rewrite <- (agreements_none a b Hlen). lia.
Qed.

Lemma agreement_rate_exact_witness :
  exists r, agreement_rate [true; false; true] [true; true; true] = Ok r /\
    (r = f_one <-> [true; false; true] = [true; true; true]) /\
    (r = f_zero <-> [true; false; true] = map negb [true; true; true]).
Proof.
  apply (agreement_rate_exact [true; false; true] [true; true; true]).
  - reflexivity.
  - discriminate.
  - reflexivity.
Defined.

(** ** The soft vote of fuzzy classifiers *)

Section SoftVoteFacts.
Local Open Scope Z_scope.

Lemma rne_div_le p d k : 0 < d -> p <= k * d -> rne_div p d <= k.
Proof.
  intros Hd H. unfold rne_div.
  pose proof (Z.div_mod p d ltac:(lia)). pose proof (Z.mod_pos_bound p d Hd).
  destruct (Z.compare_spec (2 * (p mod d)) d); [destruct (Z.even _)|..]; nia.
Qed.

Lemma bounded_by_mono A B x : A <= B -> bounded_by A x -> bounded_by B x.
Proof.
  intros HAB [->|(m & e & -> & Hm & He & Hb)]; [by left|right].
  exists m, e. repeat split; try lia.
  assert (0 < 2 ^ (- e)) by (apply Z.pow_pos_nonneg; lia). nia.
Qed.

Lemma pack_bounded Q E B :
  2 ^ 52 <= Q <= 2 ^ 53 -> -106 <= E <= 0 -> B < 2 ^ 53 ->
  Q <= B * 2 ^ (- E) -> bounded_by B (pack Q E).
Proof.
  intros HQ HE HB Hle. right. unfold pack.
  destruct (Z.eqb_spec Q (2 ^ 53)) as [->|Hne].
  - assert (E <= -1).
    { destruct (Z.eq_dec E 0) as [->|]; [|lia]. change (2 ^ (- 0)) with 1 in Hle. lia. }
    eexists _, _. split; [reflexivity|]. split; [done|]. split; [lia|].
    assert (E2 : 2 ^ (- E) = 2 * 2 ^ (- (E + 1))).
    { rewrite <- Z.pow_succ_r by lia. f_equal. lia. }
    rewrite E2 in Hle. change (Z.pos (Z.to_pos (2 ^ 52))) with (2 ^ 52). lia.
  - eexists _, _. split; [reflexivity|]. rewrite Z2Pos.id by lia. repeat split; lia.
Qed.

Lemma fadd_bounded A B x y :
  0 <= A -> 0 <= B -> A + B < 2 ^ 53 ->
  bounded_by A x -> bounded_by B y -> bounded_by (A + B) (fadd x y).
Proof.
  intros HA HB HAB Hx Hy.
  destruct Hx as [->|(mx & ex & -> & Hmx & Hex & Hbx)].
  { apply (bounded_by_mono B); [lia|].
    destruct Hy as [->|(my & ey & -> & Hy)]; [by left|right]. by exists my, ey. }
  destruct Hy as [->|(my & ey & -> & Hmy & Hey & Hby)].
  { apply (bounded_by_mono A); [lia|]. right. by exists mx, ex. }
  rewrite fadd_finite. set (ez := Z.min ex ey).
  set (M := Z.pos mx * 2 ^ (ex - ez) + Z.pos my * 2 ^ (ey - ez)).
  assert (Hpx : 0 < 2 ^ (ex - ez)) by (apply Z.pow_pos_nonneg; lia).
  assert (Hpy : 0 < 2 ^ (ey - ez)) by (apply Z.pow_pos_nonneg; lia).
  assert (Hz : 0 < 2 ^ (- ez)) by (apply Z.pow_pos_nonneg; lia).
  assert (Ex : 2 ^ (- ex) * 2 ^ (ex - ez) = 2 ^ (- ez)).
  { rewrite <- Z.pow_add_r by lia. f_equal. lia. }
  assert (Ey : 2 ^ (- ey) * 2 ^ (ey - ez) = 2 ^ (- ez)).
  { rewrite <- Z.pow_add_r by lia. f_equal. lia. }
  assert (HMhi : M <= (A + B) * 2 ^ (- ez)).
  { assert (Z.pos mx * 2 ^ (ex - ez) <= A * 2 ^ (- ez)) by (rewrite <- Ex; nia).
    assert (Z.pos my * 2 ^ (ey - ez) <= B * 2 ^ (- ez)) by (rewrite <- Ey; nia).
    unfold M. nia. }
  assert (HMlo : 2 ^ 52 <= M) by (unfold M; nia).
  destruct (Zdigits2_spec M) as (Hn & Hlo & Hhi); [lia|].
  set (n := Zdigits2 M) in *.
  assert (Hn53 : 53 <= n).
  { destruct (Z.le_gt_cases 53 n); [done|].
    assert (2 ^ n <= 2 ^ 52) by (apply Z.pow_le_mono_r; lia). lia. }
  assert (Hs : n - 53 <= - ez).
  { destruct (Z.le_gt_cases (n - 53) (- ez)); [done|].
    assert (2 ^ (53 + - ez) <= 2 ^ (n - 1)) by (apply Z.pow_le_mono_r; lia).
    rewrite Z.pow_add_r in * by lia. nia. }
  set (s := n - 53) in *.
  assert (H2s : 0 < 2 ^ s) by (apply Z.pow_pos_nonneg; lia).
  assert (Elo : 2 ^ (n - 1) = 2 ^ 52 * 2 ^ s).
  { rewrite <- Z.pow_add_r by lia. f_equal. lia. }
  assert (Ehi : 2 ^ n = 2 ^ 53 * 2 ^ s).
  { rewrite <- Z.pow_add_r by lia. f_equal. lia. }
  assert (Hq : 2 ^ 52 <= M / 2 ^ s < 2 ^ 53).
  { split; [apply Z.div_le_lower_bound|apply Z.div_lt_upper_bound]; lia. }
  rewrite (binary_normalize_shr M ez s) by (done || lia).
  pose proof (rne_div_floor M (2 ^ s)) as Hfl.
  assert (Ek : 2 ^ (- (ez + s)) * 2 ^ s = 2 ^ (- ez)).
  { rewrite <- Z.pow_add_r by lia. f_equal. lia. }
  apply pack_bounded; try lia.
  apply rne_div_le; [done|]. rewrite <- Z.mul_assoc, Ek. done.
Qed.

Lemma rint_at_most_one m e :
  e < 0 -> Z.pos m <= 2 ^ (- e) ->
  rint (S754_finite false m e) = f_zero \/ rint (S754_finite false m e) = f_one.
Proof.
  intros He Hm. unfold rint. destruct (Z.leb_spec 0 e); [lia|].
  assert (Hd : 0 < 2 ^ (- e)) by (apply Z.pow_pos_nonneg; lia).
  pose proof (rne_div_floor (Z.pos m) (2 ^ (- e))) as Hfl.
  pose proof (rne_div_le (Z.pos m) (2 ^ (- e)) 1 Hd ltac:(lia)) as Hle.
  assert (0 <= Z.pos m / 2 ^ (- e)) by (apply Z.div_pos; lia).
  assert (Hcases : rne_div (Z.pos m) (2 ^ (- e)) = 0 \/ rne_div (Z.pos m) (2 ^ (- e)) = 1)
    by lia.
  destruct Hcases as [-> | ->]; [by left|by right].
Qed.

(** The mean of a column whose sum is at most the number of rows rounds to
    [0.0] or [1.0]. *)
Lemma rint_mean_of_bounded n x :
  0 < n < 2 ^ 53 -> bounded_by n x ->
  rint (fdiv x (of_Z n)) = f_zero \/ rint (fdiv x (of_Z n)) = f_one.
Proof.
  intros Hn [->|(mx & ex & -> & Hmx & Hex & Hbx)].
  { rewrite (of_Z_pos n) by done. by left. }
  rewrite (of_Z_pos n) by done.
  pose proof (mant_bounds n Hn) as Bn. pose proof (Zdigits2_le_53 n Hn) as Hn53.
  destruct (Zdigits2_spec n) as (Hdn & _); [lia|].
  set (my := mant n) in *. set (ey := expo n).
  assert (Hey : -52 <= ey <= 0) by (unfold ey, expo; lia).
  assert (Emy : my = n * 2 ^ (- ey)).
  { unfold my, mant, ey, expo. do 2 f_equal. lia. }
  set (s := if Z.pos mx <? my then 0 else 1).
  assert (Hs : 0 <= s <= 1) by (unfold s; destruct (_ <? _); lia).
  assert (Hq : 2 ^ 52 <= Z.pos mx * 2 ^ 53 / (my * 2 ^ s) < 2 ^ 53).
  { unfold s. destruct (Z.ltb_spec (Z.pos mx) my).
    - change (2 ^ 0) with 1.
      split; [apply Z.div_le_lower_bound|apply Z.div_lt_upper_bound]; lia.
    - change (2 ^ 1) with 2.
      split; [apply Z.div_le_lower_bound|apply Z.div_lt_upper_bound]; lia. }
  assert (Hpos : Z.pos (Z.to_pos my) = my) by (apply Z2Pos.id; lia).
  assert (Hdiv : fdiv (S754_finite false mx ex) (S754_finite false (Z.to_pos my) ey)
                 = pack (rne_div (Z.pos mx * 2 ^ 53) (my * 2 ^ s)) (ex - ey - 53 + s)).
  { rewrite <- Hpos at 2. apply fdiv_finite; rewrite ?Hpos; (done || lia). }
  rewrite Hdiv.
  set (E := ex - ey - 53 + s). set (Q := rne_div (Z.pos mx * 2 ^ 53) (my * 2 ^ s)).
  pose proof (rne_div_floor (Z.pos mx * 2 ^ 53) (my * 2 ^ s)) as Hfl. fold Q in Hfl.
  assert (HE : E <= 0) by (unfold E; lia).
  assert (H2s : 0 < 2 ^ s) by (apply Z.pow_pos_nonneg; lia).
  assert (Hex' : 0 < 2 ^ (- ex)) by (apply Z.pow_pos_nonneg; lia).
  assert (Hey' : 0 < 2 ^ (- ey)) by (apply Z.pow_pos_nonneg; lia).
  assert (HQ : Q <= 2 ^ (- E)).
  { apply rne_div_le; [lia|].
    assert (EK : 2 ^ (- E) * 2 ^ s * 2 ^ (- ey) = 2 ^ 53 * 2 ^ (- ex)).
    { rewrite <- !Z.pow_add_r by (unfold E; lia). f_equal. unfold E. lia. }
    apply (Z.mul_le_mono_pos_r _ _ (2 ^ (- ey))); [done|].
    replace (2 ^ (- E) * (my * 2 ^ s) * 2 ^ (- ey))
      with (my * (2 ^ (- E) * 2 ^ s * 2 ^ (- ey))) by lia.
    rewrite EK, Emy. nia. }
  unfold pack. destruct (Z.eqb_spec Q (2 ^ 53)) as [HQ53|HQne].
  - assert (E <= -53).
    { destruct (Z.le_gt_cases E (-53)); [done|].
      assert (2 ^ (- E) <= 2 ^ 52) by (apply Z.pow_le_mono_r; lia). lia. }
    assert (E2 : 2 ^ (- E) = 2 * 2 ^ (- (E + 1))).
    { rewrite <- Z.pow_succ_r by lia. f_equal. lia. }
    apply rint_at_most_one; [lia|].
    change (Z.pos (Z.to_pos (2 ^ 52))) with (2 ^ 52). lia.
  - assert (E < 0).
    { destruct (Z.eq_dec E 0) as [E0|]; [|lia]. rewrite E0 in HQ.
      change (2 ^ (- 0)) with 1 in HQ. lia. }
    apply rint_at_most_one; rewrite ?Z2Pos.id by lia; (done || lia).
Qed.

Lemma fuzzy_value_bounded k (b : bool) :
  0 <= k < 2 ^ 53 ->
  bounded_by 1 (if b then fdiv (fadd (unit_float k) f_one) f_two
                else fdiv (unit_float k) f_two).
Proof.
  intros Hk. destruct b.
  - rewrite fuzzy_true_value by done. pose proof (rne_div_unit_bounds k Hk).
    apply pack_bounded; lia.
  - destruct (fuzzy_false_value k Hk) as [->|(m & e & -> & Hm & He)]; [by left|right].
    exists m, e. split; [done|]. split; [done|]. split; [lia|].
    assert (2 ^ 54 <= 2 ^ (- e)) by (apply Z.pow_le_mono_r; lia). lia.
Qed.

End SoftVoteFacts.

Lemma zip_with_fadd_bounded k (acc r : list float) :
  (0 <= k)%Z -> (k + 1 < 2 ^ 53)%Z ->
  Forall (bounded_by k) acc -> Forall (bounded_by 1) r ->
  Forall (bounded_by (k + 1)) (zip_with fadd acc r).
Proof.
  intros Hk Hk1 Hacc. revert r. induction Hacc as [|x acc Hx _ IH]; intros r Hr.
  - constructor.
  - destruct Hr as [|y r Hy Hr]; [constructor|]. simpl. constructor; [|by apply IH].
    by apply fadd_bounded.
Qed.

Lemma column_sums_bounded (rows : list (list float)) :
  forall (acc : list float) k,
    Forall (fun r => Forall (bounded_by 1) r) rows ->
    Forall (bounded_by k) acc ->
    (0 <= k)%Z -> (k + Z.of_nat (length rows) < 2 ^ 53)%Z ->
    Forall (bounded_by (k + Z.of_nat (length rows)))
      (fold_left (fun acc r => zip_with fadd acc (map as_float64 r)) rows acc).
Proof.
  induction rows as [|r rows IH]; intros acc k Hrows Hacc Hk Hb.
  - simpl. by rewrite Z.add_0_r.
  - apply Forall_cons in Hrows as [Hr Hrows]. cbn [fold_left length].
    rewrite map_as_float64_float.
    replace (k + Z.of_nat (S (length rows)))%Z
      with ((k + 1) + Z.of_nat (length rows))%Z by lia.
    apply IH; [done| |lia|simpl in Hb; lia].
    apply zip_with_fadd_bounded; [done|simpl in Hb; lia|done..].
Qed.

(** The soft vote of sequences whose values are sums of one fuzzy value
    each: one [0.0] or [1.0] per position. *)
Lemma soft_vote_binary (soft : list (list float)) N :
  soft <> [] ->
  Forall (fun r => length r = N /\ Forall (bounded_by 1) r) soft ->
  (Z.of_nat (length soft) < 2 ^ 53)%Z ->
  exists out,
    fuzzy_ensemble soft = Ok (Array1 out) /\ length out = N /\
    Forall (fun v => v = f_zero \/ v = f_one) out.
Proof.
  intros Hne Hall Hm. destruct soft as [|row rows]; [done|].
  set (m := length (row :: rows)) in *.
  apply Forall_cons in Hall as [[Hrow Hrow1] Hall].
  assert (Hlens : Forall (fun r : list float => length r = N) rows).
  { eapply Forall_impl; [exact Hall|]. by intros r [? _]. }
  assert (Hvals : Forall (fun r : list float => Forall (bounded_by 1) r) rows).
  { eapply Forall_impl; [exact Hall|]. by intros r [_ ?]. }
  unfold fuzzy_ensemble, np_mean. fold m.
  rewrite (same_length_check row rows N) by done. cbn [result_bind np_round].
  eexists. split; [reflexivity|]. split.
  { rewrite !length_map, column_sums_length; rewrite ?length_map; [done|].
    eapply Forall_impl; [exact Hlens|]. intros r Hr. simpl in *. lia. }
  rewrite map_as_float64_float.
  pose proof (column_sums_bounded rows row 1 Hvals Hrow1 ltac:(lia)) as Hsums.
  replace (1 + Z.of_nat (length rows))%Z with (Z.of_nat m) in Hsums
    by (unfold m; simpl length; lia).
  specialize (Hsums Hm).
  apply Forall_fmap, Forall_fmap. eapply Forall_impl; [exact Hsums|].
  assert (0 < m)%nat by (unfold m; simpl; lia).
  intros s Hs. cbv beta. apply rint_mean_of_bounded; [lia|done].
Qed.

Lemma soft_vote_of_fuzzy_spec w gt xs n fr :
  heap w !! gt = Some xs -> (0 < n < 2 ^ 53)%Z ->
  exists outs w' out,
    create_fuzzy_classifiers gt n fr w = Ok (outs, w') /\
    fuzzy_ensemble outs = Ok (Array1 out) /\
    length out = length xs /\
    Forall (fun v => v = f_zero \/ v = f_one) out /\
    rng w' = advance_by (2 * (Z.to_nat n * length xs)) (rng w) /\
    heap w' !! gt = Some xs.
Proof.
  intros Hgt Hn.
  destruct (create_fuzzy_classifiers_full (bounded_by 1) w gt xs n fr)
    as (outs & w' & Hrun & Hlen & Houts & Hrng & Hframe); [|done|].
  { intros k b Hk. by apply fuzzy_value_bounded. }
  destruct (soft_vote_binary outs (length xs)) as (out & Hvote & Hout_len & Hbits).
  - intros ->. simpl in Hlen. lia.
  - done.
  - rewrite Hlen. lia.
  - by exists outs, w', out.
Qed.



(** X16.  [test_fuzzy] hands to the report one value per sample of the
    ground truth, each of them [0.0] or [1.0]; it leaves the ground truth
    unchanged and makes six draws per sample. *)
Theorem test_fuzzy_is_binary w gt xs fr :
  heap w !! gt = Some xs ->
  exists out w',
    test_fuzzy gt fr w = Ok (Ok (Array1 out), w') /\
    length out = length xs /\
    Forall (fun v => v = f_zero \/ v = f_one) out /\
    heap w' !! gt = Some xs /\
    rng w' = advance_by (6 * length xs) (rng w).
Proof.
  intros Hgt. unfold test_fuzzy.
  destruct (soft_vote_of_fuzzy_spec w gt xs 3 fr Hgt ltac:(done))
    as (outs & w' & out & Hrun & Hvote & Hlen & Hbits & Hrng & Hframe).
  rewrite (bind_run _ _ _ _ _ Hrun). unfold ret. rewrite Hvote.
  exists out, w'. split; [done|]. split; [done|]. split; [done|]. split; [done|].
  rewrite Hrng. f_equal. change (Z.to_nat 3) with 3%nat. lia.
Qed.

Lemma test_fuzzy_is_binary_witness :
  exists out w',
    test_fuzzy 1%positive f_half (one_list_world [true; false] (2 ^ 62))
    = Ok (Ok (Array1 out), w') /\
    length out = length [true; false] /\
    Forall (fun v => v = f_zero \/ v = f_one) out /\
    heap w' !! 1%positive = Some [true; false] /\
    rng w' = advance_by (6 * length [true; false])
               (rng (one_list_world [true; false] (2 ^ 62))).
Proof.
  apply (test_fuzzy_is_binary
           (one_list_world [true; false] (2 ^ 62)) 1%positive [true; false] f_half).
  reflexivity.
Defined.
